(** * The pausable data pipeline of [ohlc/candles/app.py]

    A shallow embedding of [DataSource] (construction, [pause], [unpause],
    [next], [loop]) and of the sink [CandleApp.send], followed by the
    properties of the pipeline.

    The program is concurrent: [unpause] starts a [threading.Thread] running
    [DataSource.loop] while the caller goes on.  Every source line that reads
    or writes a field of the shared [DataSource] is one atomic step of the
    actor that executes it, and an execution is an interleaving of such steps
    chosen by a schedule.  Program counters are named after the source line
    they are about to execute.

    Line 91 is floating-point code: [float] and the division are modelled
    as the correctly rounded operations on doubles; [time.sleep], which is
    the platform's, is a parameter of the executions. *)

From Stdlib Require Import QArith Qround Qpower Qabs Lqa.
From Stdlib Require Import String.
From stdpp Require Import base option list.

Set Implicit Arguments.
Set Default Proof Using "Type".
Local Open Scope nat_scope.

#[global] Arguments Qpower _ _ : simpl never.

(** ** Values shared by every instance *)

(** Identity of a [Thread] object: its rank in creation order. *)
Definition Tid := nat.

(** The exceptions the modelled code raises or lets escape.  [OtherError n]
    stands for any exception raised by an external collaborator. *)
Inductive Exn :=
| ValueError
| TypeError
| AttributeError
| RuntimeError
| StopIteration
| OverflowError
| ZeroDivisionError
| OtherError (n : nat).

(** Records written through [log]. *)
Inductive LogRecord :=
| LogWarn (msg : string)
| LogError (msg : string).

(** ** Doubles

    Line 91 computes [1.0 / float(self.data_rate)] in double precision.  A
    finite double is kept as the rational it stands for. *)

Inductive Double :=
| Finite (q : Q)
| Infinite (negative : bool).

(** The integer part of the binary logarithm of a positive rational. *)
Definition Qlog2 (q : Q) : Z :=
  let e := (Z.log2 (Qnum q) - Z.log2 (Zpos (Qden q)))%Z in
  if Qle_bool (2 ^ e)%Q q then e else (e - 1)%Z.

(** The nearest integer, the even one of two that are equally near. *)
Definition round_half_even (q : Q) : Z :=
  let f := Qfloor q in
  match (q - inject_Z f ?= 1 # 2)%Q with
  | Lt => f
  | Gt => (f + 1)%Z
  | Eq => if Z.even f then f else (f + 1)%Z
  end.

(** The double nearest to a positive rational [q]: 53 significant bits,
    ties to even; below [2^-1022] doubles are [2^-1074] apart.  [None] when
    the result is beyond the largest finite double. *)
Definition nearest_double (q : Q) : option Q :=
  let e := Z.max (Qlog2 q) (-1022) in
  let ulp := (2 ^ (e - 52))%Q in
  let v := (inject_Z (round_half_even (q / ulp)) * ulp)%Q in
  if Qle_bool (2 ^ 1024)%Q v then None else Some (Qred v).

Definition to_double (q : Q) : Double :=
  match (q ?= 0)%Q with
  | Eq => Finite 0
  | Gt => match nearest_double q with
          | Some v => Finite v
          | None => Infinite false
          end
  | Lt => match nearest_double (- q)%Q with
          | Some v => Finite (- v)%Q
          | None => Infinite true
          end
  end.

(** [float(x)] for a number [x] (an [int], a finite [float] or a
    [Fraction]): the nearest double, [OverflowError] when there is none. *)
Definition float_of (x : Q) : Q + Exn :=
  match to_double x with
  | Finite f => inl f
  | Infinite _ => inr OverflowError
  end.

(** [1.0 / f] for a double [f]. *)
Definition one_over (f : Q) : Double + Exn :=
  if Qeq_bool f 0 then inr ZeroDivisionError
  else inl (to_double (1 / f)%Q).

(** The argument of [time.sleep] at line 91: [1.0 / float(data_rate)]. *)
Definition sleep_length (data_rate : Q) : Double + Exn :=
  match float_of data_rate with
  | inl f => one_over f
  | inr e => inr e
  end.

(** [time.sleep] belongs to the platform, not to the program: it is a
    function from the duration to the exception raised, [None] when the call
    returns. *)
Class Platform := time_sleep : Double -> option Exn.

(** [time.sleep] of CPython 3.11, as far as it goes before it calls the
    operating system: the duration is converted to a whole number of
    nanoseconds, rounded away from zero, which has to fit a signed 64-bit
    integer ([OverflowError]) and must not be negative ([ValueError]).  The
    comparison against [2^63] is made on doubles and lets [2^63] itself
    through, which the conversion to an integer then turns into [- 2^63], a
    negative number.  A duration that passes is handed to the operating
    system and is taken to be slept. *)
Definition cpython_sleep (secs : Double) : option Exn :=
  match secs with
  | Infinite _ => Some OverflowError
  | Finite s =>
      match to_double (s * 1000000000)%Q with
      | Infinite _ => Some OverflowError
      | Finite d =>
          let ns := if Qle_bool 0 d then Qceiling d else Qfloor d in
          if ((ns <? - 2 ^ 63) || (2 ^ 63 <? ns))%Z then Some OverflowError
          else if ((ns <? 0) || (ns =? 2 ^ 63))%Z then Some ValueError
          else None
      end
  end.

(** The examples run on CPython; the properties stated in a section hold on
    every platform. *)
#[global] Instance cpython : Platform := cpython_sleep.

(** The double [0.1], the duration slept at 10 ticks per second. *)
Definition tenth : Q := 3602879701896397 # 36028797018963968.

(** The double [1e-11]: one tick per [10^11] seconds. *)
Definition one_per_1e11 : Q :=
  6189700196426901 # 618970019642690137449562112.

(** The relative error of one rounding, [2^-53], and a bound on that of the
    quotient [1.0 / float(r)], [2^-51]. *)
Definition unit_roundoff : Q := 1 # 9007199254740992.

Definition quotient_error : Q := 1 # 2251799813685248.

Section Pipeline.

(** [Tick] is the type of the values the generator yields; [SinkSt] is the
    state of the object bound as sink. *)
Variable Tick : Type.
Variable SinkSt : Type.

(** *** Collaborators *)

(** A generator object is the sequence it yields, [None] from the point where
    it is exhausted, together with a cursor kept in the world (the number of
    values already taken from it). *)
Definition Generator := nat -> option Tick.

(** What one call of [sink.send(v)] does: the new state of the sink, the
    exception it raises (if any), and the records it logged. *)
Record SendOutcome := mkSendOutcome {
  out_state : SinkSt;
  out_exn : option Exn;
  out_logs : list LogRecord
}.

Record Sink := mkSink {
  send : SinkSt -> Tick -> SendOutcome
}.

(** The platform the program runs on. *)
Context {platform : Platform}.

(** What the controller does with a [DataSource]: the methods it calls, and
    the assignment [source.sink = s] (line 119). *)
Inductive Call :=
| CallPause
| CallUnpause
| CallNext
| SetSink (s : Sink).

(** *** [class DataSource] *)

(** [data_rate] is a number (an [int], a finite [float] or a [Fraction]),
    kept as the rational it stands for. *)
Record DataSource := mkDataSource {
  source_gen : option Generator;
  data_rate : Q;
  thread : option Tid;
  paused : bool;
  sink : option Sink
}.

(** [DataSource.__init__(self, source_gen, data_rate=1.0, sink=None)] *)
Definition DataSource_init (g : option Generator) (rate : Q) (s : option Sink)
  : DataSource :=
  {| source_gen := g;
     data_rate := rate;
     thread := None;
     paused := true;
     sink := s |}.

(** The outcome of a call, as its caller sees it. *)
Inductive Result :=
| Returned (v : option Tick)
| Raises (e : Exn).

(** [next(g)] on a generator object whose cursor is [pos]. *)
Definition gen_next (g : Generator) (pos : nat) : Result * nat :=
  match g pos with
  | Some v => (Returned (Some v), S pos)
  | None => (Raises StopIteration, pos)
  end.

(** [DataSource.next(self)]: the result and the new cursor of the generator. *)
Definition DataSource_next (d : DataSource) (pos : nat) : Result * nat :=
  match source_gen d with
  | None => (Returned None, pos)
  | Some g => gen_next g pos
  end.

(** *** Program counters *)

(** A [Thread] object whose target is [DataSource.loop].  The argument [t] is
    the local variable [t] of [loop]. *)
Inductive LoopPc :=
| LNotStarted
| L83
| L84
| L85
| L86 (t : option Tid)
| L87 (t : option Tid)
| L89 (t : option Tid)
| L90 (t : option Tid) (v : Tick)
| L91 (t : option Tid)
| LReturned
| LRaised (e : Exn).

(** Who called [pause]: the controller, or [unpause] at line 68. *)
Inductive Caller :=
| FromTop
| FromUnpause.

Inductive CtlPc :=
| CReady
| P61 (k : Caller)
| P62 (k : Caller)
| P63 (k : Caller)
| P64 (k : Caller) (t : option Tid)
| P65 (k : Caller)
| U69
| U70 (t : Tid)
| U71 (t : Tid)
| C78
| CRaised (e : Exn).

(** *** Observable events, newest first in the trace *)
Inductive Event :=
| EvCall (c : Call)
| EvReturn (c : Call) (r : Result)
| EvStart (t : Tid)
| EvDeliver (t : Tid) (v : Tick) (e : option Exn)
| EvLog (r : LogRecord)
| EvSleep (t : Tid) (secs : Double)
| EvUncaught (t : Tid) (e : Exn).

(** *** The world *)
Record World := mkWorld {
  ds : DataSource;
  gen_pos : nat;
  sink_st : SinkSt;
  threads : list LoopPc;
  ctl : CtlPc;
  prog : list Call;
  trace : list Event
}.

Definition boot (d : DataSource) (s0 : SinkSt) (p : list Call) : World :=
  {| ds := d; gen_pos := 0; sink_st := s0; threads := [];
     ctl := CReady; prog := p; trace := [] |}.

Definition set_paused (b : bool) (w : World) : World :=
  {| ds := {| source_gen := source_gen (ds w); data_rate := data_rate (ds w);
              thread := thread (ds w); paused := b; sink := sink (ds w) |};
     gen_pos := gen_pos w; sink_st := sink_st w; threads := threads w;
     ctl := ctl w; prog := prog w; trace := trace w |}.

Definition set_thread (t : option Tid) (w : World) : World :=
  {| ds := {| source_gen := source_gen (ds w); data_rate := data_rate (ds w);
              thread := t; paused := paused (ds w); sink := sink (ds w) |};
     gen_pos := gen_pos w; sink_st := sink_st w; threads := threads w;
     ctl := ctl w; prog := prog w; trace := trace w |}.

Definition set_sink (s : option Sink) (w : World) : World :=
  {| ds := {| source_gen := source_gen (ds w); data_rate := data_rate (ds w);
              thread := thread (ds w); paused := paused (ds w); sink := s |};
     gen_pos := gen_pos w; sink_st := sink_st w; threads := threads w;
     ctl := ctl w; prog := prog w; trace := trace w |}.

Definition set_gen_pos (n : nat) (w : World) : World :=
  {| ds := ds w; gen_pos := n; sink_st := sink_st w; threads := threads w;
     ctl := ctl w; prog := prog w; trace := trace w |}.

Definition set_sink_st (s : SinkSt) (w : World) : World :=
  {| ds := ds w; gen_pos := gen_pos w; sink_st := s; threads := threads w;
     ctl := ctl w; prog := prog w; trace := trace w |}.

Definition set_threads (ts : list LoopPc) (w : World) : World :=
  {| ds := ds w; gen_pos := gen_pos w; sink_st := sink_st w; threads := ts;
     ctl := ctl w; prog := prog w; trace := trace w |}.

Definition set_pc (i : Tid) (pc : LoopPc) (w : World) : World :=
  set_threads (<[i := pc]> (threads w)) w.

Definition set_ctl (c : CtlPc) (w : World) : World :=
  {| ds := ds w; gen_pos := gen_pos w; sink_st := sink_st w;
     threads := threads w; ctl := c; prog := prog w; trace := trace w |}.

Definition set_prog (p : list Call) (w : World) : World :=
  {| ds := ds w; gen_pos := gen_pos w; sink_st := sink_st w;
     threads := threads w; ctl := ctl w; prog := p; trace := trace w |}.

Definition emit (evs : list Event) (w : World) : World :=
  {| ds := ds w; gen_pos := gen_pos w; sink_st := sink_st w;
     threads := threads w; ctl := ctl w; prog := prog w;
     trace := evs ++ trace w |}.

(** An exception that escapes [loop] ends the thread; [threading] reports it
    on the thread's side and nothing reaches the caller of [unpause]. *)
Definition die (i : Tid) (e : Exn) (w : World) : World :=
  emit [EvUncaught i e] (set_pc i (LRaised e) w).

Definition warn_superseded : LogRecord :=
  LogWarn "found new data thread, stopping current".

(** Line 91, [if self.data_rate != 0: time.sleep(1.0 / float(self.data_rate))]:
    the exception raised, or the duration slept if any. *)
Definition line_91 (r : Q) : option Double + Exn :=
  if Qeq_bool r 0 then inl None
  else match sleep_length r with
       | inr e => inr e
       | inl secs =>
           match time_sleep secs with
           | Some e => inr e
           | None => inl (Some secs)
           end
       end.

(** *** [DataSource.loop], one source line per step *)
Definition loop_step (i : Tid) (w : World) : option World :=
  match threads w !! i with
  | None => None
  | Some pc =>
    match pc with
    | LNotStarted => None
    | L83 =>
        match sink (ds w) with
        | None => Some (die i ValueError w)
        | Some _ => Some (set_pc i L84 w)
        end
    | L84 => Some (set_pc i L85 (set_paused false w))
    | L85 => Some (set_pc i (L86 (thread (ds w))) w)
    | L86 t =>
        if paused (ds w) then Some (set_pc i LReturned w)
        else Some (set_pc i (L87 t) w)
    | L87 t =>
        if decide (t = thread (ds w)) then Some (set_pc i (L89 t) w)
        else Some (emit [EvLog warn_superseded] (set_pc i LReturned w))
    | L89 t =>
        match source_gen (ds w) with
        | None => Some (die i TypeError w)
        | Some g =>
            match gen_next g (gen_pos w) with
            | (Returned (Some v), pos') =>
                Some (set_pc i (L90 t v) (set_gen_pos pos' w))
            | (Returned None, _) => Some (die i TypeError w)
            | (Raises e, pos') => Some (die i e (set_gen_pos pos' w))
            end
        end
    | L90 t v =>
        match sink (ds w) with
        | None => Some (die i AttributeError w)
        | Some s =>
            let o := send s (sink_st w) v in
            let w1 :=
              emit (EvDeliver i v (out_exn o) :: map EvLog (out_logs o))
                   (set_sink_st (out_state o) w) in
            match out_exn o with
            | None => Some (set_pc i (L91 t) w1)
            | Some e => Some (die i e w1)
            end
        end
    | L91 t =>
        match line_91 (data_rate (ds w)) with
        | inl None => Some (set_pc i (L86 t) w)
        | inl (Some secs) =>
            Some (emit [EvSleep i secs] (set_pc i (L86 t) w))
        | inr e => Some (die i e w)
        end
    | LReturned => None
    | LRaised _ => None
    end
  end.

(** *** The controller: [pause], [unpause], [next] and the binding of a
    sink *)

Definition finished (pc : LoopPc) : bool :=
  match pc with
  | LReturned | LRaised _ => true
  | _ => false
  end.

Definition call_of (k : Caller) : Call :=
  match k with
  | FromTop => CallPause
  | FromUnpause => CallUnpause
  end.

(** [pause] returns: to the controller, or to line 69 of [unpause]. *)
Definition pause_returns (k : Caller) (w : World) : World :=
  match k with
  | FromTop =>
      emit [EvReturn CallPause (Returned None)] (set_ctl CReady w)
  | FromUnpause => set_ctl U69 w
  end.

Definition ctl_raise (k : Caller) (e : Exn) (w : World) : World :=
  emit [EvReturn (call_of k) (Raises e)] (set_ctl (CRaised e) w).

Definition ctl_step (w : World) : option World :=
  match ctl w with
  | CReady =>
      match prog w with
      | [] => None
      | c :: rest =>
          let w1 := emit [EvCall c] (set_prog rest w) in
          match c with
          | CallPause => Some (set_ctl (P61 FromTop) w1)
          | CallUnpause => Some (set_ctl (P61 FromUnpause) w1)
          | CallNext => Some (set_ctl C78 w1)
          | SetSink s => Some (set_sink (Some s) w1)
          end
      end
  | P61 k =>
      if paused (ds w) then Some (pause_returns k w)
      else Some (set_ctl (P62 k) w)
  | P62 k => Some (set_ctl (P63 k) (set_paused true w))
  | P63 k => Some (set_ctl (P64 k (thread (ds w))) w)
  | P64 k t =>
      match t with
      | None => Some (ctl_raise k AttributeError w)
      | Some j =>
          match threads w !! j with
          | None => None
          | Some LNotStarted => Some (ctl_raise k RuntimeError w)
          | Some pc =>
              if finished pc then Some (set_ctl (P65 k) w) else None
          end
      end
  | P65 k => Some (pause_returns k (set_thread None w))
  | U69 =>
      let j := length (threads w) in
      Some (set_ctl (U70 j)
              (set_thread (Some j) (set_threads (threads w ++ [LNotStarted]) w)))
  | U70 j => Some (set_ctl (U71 j) w)
  | U71 j =>
      Some (emit [EvReturn CallUnpause (Returned None); EvStart j]
              (set_ctl CReady (set_pc j L83 w)))
  | C78 =>
      let '(r, pos') := DataSource_next (ds w) (gen_pos w) in
      match r with
      | Returned _ =>
          Some (emit [EvReturn CallNext r] (set_ctl CReady (set_gen_pos pos' w)))
      | Raises e =>
          Some (emit [EvReturn CallNext r]
                  (set_ctl (CRaised e) (set_gen_pos pos' w)))
      end
  | CRaised _ => None
  end.

(** *** Interleavings *)

Inductive Actor :=
| Ctl
| Thr (i : Tid).

Definition step (a : Actor) (w : World) : option World :=
  match a with
  | Ctl => ctl_step w
  | Thr i => loop_step i w
  end.

(** [run sched w] executes the schedule; it is [None] as soon as the actor
    whose turn it is cannot move (blocked in [join], finished, not started). *)
Fixpoint run (sched : list Actor) (w : World) : option World :=
  match sched with
  | [] => Some w
  | a :: rest =>
      match step a w with
      | None => None
      | Some w' => run rest w'
      end
  end.

End Pipeline.

Arguments LNotStarted {Tick}.
Arguments L83 {Tick}.
Arguments L84 {Tick}.
Arguments L85 {Tick}.
Arguments L86 {Tick} t.
Arguments L87 {Tick} t.
Arguments L89 {Tick} t.
Arguments L91 {Tick} t.
Arguments LReturned {Tick}.
Arguments LRaised {Tick} e.
Arguments Raises {Tick} e.
Arguments CallPause {Tick SinkSt}.
Arguments CallUnpause {Tick SinkSt}.
Arguments CallNext {Tick SinkSt}.
Arguments EvStart {Tick SinkSt} t.
Arguments EvDeliver {Tick SinkSt} t v e.
Arguments EvLog {Tick SinkSt} r.
Arguments EvSleep {Tick SinkSt} t secs.
Arguments EvUncaught {Tick SinkSt} t e.

(** ** The sink of the application: [CandleApp.send] *)

Section CandleApp.

(** [App] is the state of the [CandleApp] object (its chart and its text
    widget), [Line] the type of the lines [chart.format()] yields. *)
Variable Tick : Type.
Variable App : Type.
Variable Line : Type.

(** Code that works on the application state and either returns or raises. *)
Definition M (A : Type) : Type := App -> App * (A + Exn).

#[local] Instance M_ret : MRet M := fun A (a : A) st => (st, inl a).

#[local] Instance M_bind : MBind M := fun A B (f : A -> M B) (m : M A) st =>
  match m st with
  | (st', inl a) => f a st'
  | (st', inr e) => (st', inr e)
  end.

Definition raise {A : Type} (e : Exn) : M A := fun st => (st, inr e).

(** The chart and the text widget are defined outside this module; their
    operations are parameters, each of which may fail. *)
Record ChartOps := mkChartOps {
  add_ohlc : Tick -> M unit;
  format : M (list Line);
  is_str : Line -> bool;
  update_text : list Line -> M unit
}.

Variable ops : ChartOps.

(** The body of the [try] block of [CandleApp.send], lines 148-154. *)
Definition send_body (ohlc : option Tick) : M unit :=
  _ ← (match ohlc with
       | Some v => add_ohlc ops v
       | None => mret tt
       end);
  lines ← format ops;
  _ ← (match lines with
       | l :: _ => if is_str ops l then raise ValueError else mret tt
       | [] => mret tt
       end);
  update_text ops lines.

Definition send_failed : LogRecord :=
  LogError "faild to add ohlc value: %s".

(** [CandleApp.send(self, ohlc)]: the bare [except] at line 155 catches
    whatever the body raises and logs it. *)
Definition CandleApp_send (ohlc : option Tick) (st : App)
  : App * list LogRecord :=
  match send_body ohlc st with
  | (st', inl _) => (st', [])
  | (st', inr _) => (st', [send_failed])
  end.

(** The [CandleApp] bound as [source.sink] (line 119). *)
Definition CandleApp_sink : Sink Tick App :=
  {| send := fun st v =>
       let '(st', logs) := CandleApp_send (Some v) st in
       {| out_state := st'; out_exn := None; out_logs := logs |} |}.

End CandleApp.

(** ** Reading a trace *)

Section Observers.

Variable Tick : Type.
Variable SinkSt : Type.

(** The deliveries of a trace, oldest first: which loop instance called
    [sink.send] with which value. *)
Fixpoint deliveries_rev (tr : list (Event Tick SinkSt)) : list (Tid * Tick) :=
  match tr with
  | [] => []
  | EvDeliver i v _ :: tr' => (i, v) :: deliveries_rev tr'
  | _ :: tr' => deliveries_rev tr'
  end.

Definition deliveries (tr : list (Event Tick SinkSt)) : list (Tid * Tick) :=
  rev (deliveries_rev tr).

(** What the calls of [next] returned, oldest first. *)
Fixpoint next_results_rev (tr : list (Event Tick SinkSt)) : list (Result Tick) :=
  match tr with
  | [] => []
  | EvReturn CallNext r :: tr' => r :: next_results_rev tr'
  | _ :: tr' => next_results_rev tr'
  end.

Definition next_results (tr : list (Event Tick SinkSt)) : list (Result Tick) :=
  rev (next_results_rev tr).

(** What [n] successive calls return: the next [n] values of the generator,
    or [None] each time when no generator is bound. *)
Definition successive_values (g : option (Generator Tick)) (pos n : nat)
  : list (Result Tick) :=
  match g with
  | Some g => map (fun k => Returned (g (pos + k))) (seq 0 n)
  | None => repeat (Returned None) n
  end.

(** Scan of a history (oldest first): [closed] holds from a normal return of
    [pause] to the next call of [unpause]; the scan fails on a delivery made
    while it holds. *)
Fixpoint barrier_scan (closed : bool) (h : list (Event Tick SinkSt)) : bool :=
  match h with
  | [] => true
  | EvReturn CallPause (Returned _) :: h' => barrier_scan true h'
  | EvCall CallUnpause :: h' => barrier_scan false h'
  | EvDeliver _ _ _ :: h' => negb closed && barrier_scan closed h'
  | _ :: h' => barrier_scan closed h'
  end.

Definition barrier_respected (tr : list (Event Tick SinkSt)) : bool :=
  barrier_scan false (rev tr).

(** A loop instance is inside an iteration: past the supersession check of
    line 87 and not yet back at the [while] test. *)
Definition in_iteration (pc : LoopPc Tick) : bool :=
  match pc with
  | L89 _ | L90 _ _ | L91 _ => true
  | _ => false
  end.

Definition iterating (ts : list (LoopPc Tick)) : nat :=
  length (filter (fun pc => in_iteration pc = true) ts).

End Observers.

Arguments deliveries {Tick SinkSt} tr.
Arguments next_results {Tick SinkSt} tr.
Arguments successive_values {Tick} g pos n.
Arguments barrier_respected {Tick SinkSt} tr.
Arguments iterating {Tick} ts.
Arguments in_iteration {Tick} pc.

(** ** Concrete collaborators for the examples *)

(** A generator that yields 1, 2, 3, ... for ever. *)
Definition counting : Generator nat := fun n => Some (S n).

(** A generator that yields 1, ..., [k] and is then exhausted. *)
Definition upto (k : nat) : Generator nat :=
  fun n => if n <? k then Some (S n) else None.

(** A sink that records what it is sent. *)
Definition recorder : Sink nat (list nat) :=
  {| send := fun st v =>
       {| out_state := st ++ [v]; out_exn := None; out_logs := [] |} |}.

(** A sink whose [send] raises on the value [k] and records the others. *)
Definition failing_on (k : nat) : Sink nat (list nat) :=
  {| send := fun st v =>
       if v =? k
       then {| out_state := st; out_exn := Some (OtherError 0); out_logs := [] |}
       else {| out_state := st ++ [v]; out_exn := None; out_logs := [] |} |}.

(** A chart whose [add_ohlc] fails on the value [k]; its state is the list of
    values added, and each line it formats is one value. *)
Definition brittle_chart (k : nat) : ChartOps nat (list nat) nat :=
  {| add_ohlc := fun v st =>
       if v =? k then (st, inr (OtherError 1)) else (st ++ [v], inl tt);
     format := fun st => (st, inl st);
     is_str := fun _ => false;
     update_text := fun _ st => (st, inl tt) |}.

(** The controller steps of one complete [unpause] that finds the pipeline
    paused: the call, lines 61, 69, 70 and 71. *)
Definition unpause_steps : list Actor := [Ctl; Ctl; Ctl; Ctl; Ctl].

(** *** Scenarios *)

(** The pipeline of the examples: [counting] at 10 ticks per second into
    [recorder]. *)
Definition demo : DataSource nat (list nat) :=
  DataSource_init (Some counting) 10 (Some recorder).

(** The same pipeline built without a sink, as [random_source] builds it. *)
Definition demo_without_sink : DataSource nat (list nat) :=
  DataSource_init (Some counting) 1 None.

(** [unpause(); unpause(); pause()] with a first thread that is slow to
    start.  Both calls of [unpause] return before either thread has run line
    84, so that the [pause] inside the second call finds [paused] still true
    and joins nothing.  Thread 1 then runs one whole iteration; thread 0
    starts, reads [self.thread] (which is thread 1 by now) at line 85 and
    fetches a value at line 89. *)
Definition race_start : World nat (list nat) :=
  boot demo [] [CallUnpause; CallUnpause; CallPause].

Definition race_prefix : list Actor :=
  unpause_steps ++ unpause_steps ++ repeat (Thr 1) 8 ++ repeat (Thr 0) 6.

(** [pause()]: the call and lines 61, 62 and 63; the join of line 64 waits
    until thread 1 has left its loop at line 86; then lines 64 and 65. *)
Definition race_pause : list Actor :=
  [Ctl; Ctl; Ctl; Ctl; Thr 1; Ctl; Ctl].

(** [unpause(); pause()] with a thread that starts after [pause] returned. *)
Definition late_start : World nat (list nat) :=
  boot demo [] [CallUnpause; CallPause].

Definition late_sched : list Actor :=
  unpause_steps ++ [Ctl; Ctl] ++ repeat (Thr 0) 7.

(** [unpause(); unpause()]: both threads reach line 90, then deliver in
    turn. *)
Definition overlap_start : World nat (list nat) :=
  boot demo [] [CallUnpause; CallUnpause].

Definition overlap_enter : list Actor :=
  unpause_steps ++ unpause_steps ++ repeat (Thr 0) 6 ++ repeat (Thr 1) 6.

Definition overlap_deliver : list Actor :=
  [Thr 0; Thr 1] ++ repeat (Thr 0) 5 ++ repeat (Thr 1) 5.

(** Has a loop instance logged that it found itself superseded? *)
Definition superseded_logged (tr : list (Event nat (list nat))) : bool :=
  existsb (fun ev => match ev with
                     | EvLog (LogWarn _) => true
                     | _ => false
                     end) tr.

(** A loop instance about to deliver the value 1, alone and current. *)
Definition at_line_90 (s : Sink nat (list nat)) (rate : Q)
  : World nat (list nat) :=
  {| ds := {| source_gen := Some counting; data_rate := rate;
              thread := Some 0; paused := false; sink := Some s |};
     gen_pos := 1; sink_st := []; threads := [L90 (Some 0) 1];
     ctl := CReady; prog := []; trace := [] |}.

(** A loop instance at line 89 whose generator is exhausted. *)
Definition at_line_89_exhausted : World nat (list nat) :=
  {| ds := {| source_gen := Some (upto 1); data_rate := 10;
              thread := Some 0; paused := false; sink := Some recorder |};
     gen_pos := 1; sink_st := [1]; threads := [L89 (Some 0)];
     ctl := CReady; prog := []; trace := [] |}.

(** One [unpause], then the thread runs alone for [n] steps. *)
Definition solo (n : nat) : list Actor := unpause_steps ++ repeat (Thr 0) n.

(** ** Invariants of the executions *)

Section Invariants.

Variable Tick : Type.
Variable SinkSt : Type.

(** A loop thread that has not gone further than the test of line 83. *)
Definition stopped_at_83 (pc : LoopPc Tick) : Prop :=
  pc = LNotStarted \/ pc = L83 \/ pc = LRaised ValueError.

(** The events of an execution in which nothing is delivered, [pause] and
    [unpause] return normally, and loop threads die of [ValueError] only. *)
Definition quiet_event (ev : Event Tick SinkSt) : Prop :=
  match ev with
  | EvDeliver _ _ _ => False
  | EvReturn CallPause (Raises _) => False
  | EvReturn CallUnpause (Raises _) => False
  | EvUncaught _ e => e = ValueError
  | _ => True
  end.

(** The controller is not between lines 62 and 65 of [pause]. *)
Definition before_join (c : CtlPc) : Prop :=
  match c with
  | P62 _ | P63 _ | P64 _ _ | P65 _ => False
  | _ => True
  end.

(** What holds of every world of a pipeline built without a sink, as long as
    none is assigned to it. *)
Record sinkless (w : World Tick SinkSt) : Prop := mkSinkless {
  sl_sink : sink (ds w) = None;
  sl_paused : paused (ds w) = true;
  sl_threads : Forall stopped_at_83 (threads w);
  sl_ctl : before_join (ctl w);
  sl_trace : Forall quiet_event (trace w)
}.

(** A sink has been assigned to the [DataSource] since it was built. *)
Definition sink_assigned (tr : list (Event Tick SinkSt)) : Prop :=
  exists s, In (EvCall (SetSink s)) tr.

(** The controller is inside a call of [unpause]. *)
Definition in_unpause (c : CtlPc) : bool :=
  match c with
  | P61 FromUnpause | P62 FromUnpause | P63 FromUnpause
  | P64 FromUnpause _ | P65 FromUnpause => true
  | U69 | U70 _ | U71 _ => true
  | _ => false
  end.

Definition unpause_called (tr : list (Event Tick SinkSt)) : Prop :=
  In (EvCall CallUnpause) tr.

Definition thread_started (tr : list (Event Tick SinkSt)) : Prop :=
  exists j, In (EvStart j) tr.

(** Either [unpause] has started a thread, or the pipeline is still paused
    and no thread object has been started. *)
Record paused_until_unpause (w : World Tick SinkSt) : Prop := mkPausedUntil {
  pu_ctl : in_unpause (ctl w) = true -> unpause_called (trace w);
  pu_run : (unpause_called (trace w) /\ thread_started (trace w)) \/
           (paused (ds w) = true /\ Forall (eq LNotStarted) (threads w))
}.

End Invariants.

(** ** The rest of the module *)

(** *** [random_source] and the methods of [CandleApp] that drive the
    pipeline *)

Section Application.

Variable Tick : Type.
Variable App : Type.
Variable Line : Type.

(** [random_source(data_rate=1.0, **source_args)], lines 93-96: a
    [DataSource] over the generator [rgen] that [random_ohlc_generator]
    returns, without a sink; [source_args] is not used. *)
Definition random_source (rgen : Generator Tick) (data_rate : Q)
  : DataSource Tick App :=
  DataSource_init (Some rgen) data_rate None.

(** What [CandleApp.__init__] does to the source it is given, lines 118-119:
    the assignment [self.source.sink = self], which the controller executes
    next. *)
Definition CandleApp_init (ops : ChartOps Tick App Line)
    (w : World Tick App) : World Tick App :=
  set_prog (SetSink (CandleApp_sink ops) :: prog w) w.

(** [CandleApp.toggle_pause], lines 140-142: the test of
    [self.source.paused] chooses the method the controller calls next. *)
Definition toggle_pause (w : World Tick App) : World Tick App :=
  set_prog ((if paused (ds w) then CallUnpause else CallPause) :: prog w) w.

(** [CandleApp.next_candle], line 144: [self.send(self.source.next())].
    The argument is evaluated first, outside the [try] of [send], so that
    what [next] raises escapes; the result is the exception raised (if any),
    the new cursor of the generator, the new state of the application and
    the records logged. *)
Definition next_candle (ops : ChartOps Tick App Line)
    (source : DataSource Tick App) (pos : nat) (st : App)
  : option Exn * nat * App * list LogRecord :=
  match DataSource_next source pos with
  | (Returned ohlc, pos') =>
      let '(st', logs) := CandleApp_send ops ohlc st in
      (None, pos', st', logs)
  | (Raises e, pos') => (Some e, pos', st, [])
  end.

End Application.

(** *** [resize_height] and [resize_width] *)

(** The product [h * 1.2] is a multiplication of doubles.  A positive double
    is kept as a pair [(m, e)] standing for [m * 2^e]. *)

(** The double nearest to [m * 2^e] (53 significant bits, ties to even). *)
Definition round53 (m e : Z) : Z * Z :=
  let bits := (Z.log2 m + 1)%Z in
  if (bits <=? 53)%Z then (m, e)
  else
    let s := (bits - 53)%Z in
    let q := Z.shiftr m s in
    let r := (m - Z.shiftl q s)%Z in
    let half := Z.shiftl 1 (s - 1) in
    let q' := if (r <? half)%Z then q
              else if (half <? r)%Z then (q + 1)%Z
              else if Z.even q then q else (q + 1)%Z in
    (q', (e + s)%Z).

(** [m * 2^e] is beyond the largest finite double. *)
Definition too_large (m e : Z) : bool := (1024 <=? Z.log2 m + e)%Z.

(** The literal [1.2] is the double [5404319552844595 / 2^52]. *)
Definition mantissa_1_2 : Z := 5404319552844595%Z.

(** [int(h * 1.2)] for a Python integer [h]: [h] is converted to a double,
    multiplied by [1.2], and the product truncated towards zero.  [None] is
    [OverflowError] (from the conversion of a huge [h], or from [int] applied
    to an infinite product). *)
Definition int_times_1_2 (h : Z) : option Z :=
  if (h =? 0)%Z then Some 0%Z
  else
    let '(m1, e1) := round53 (Z.abs h) 0 in
    if too_large m1 e1 then None
    else
      let '(m2, e2) := round53 (m1 * mantissa_1_2) (e1 - 52) in
      if too_large m2 e2 then None
      else
        let t := if (0 <=? e2)%Z then Z.shiftl m2 e2
                 else Z.shiftr m2 (- e2) in
        Some (Z.sgn h * t)%Z.

(** [CandleApp.resize_height], lines 124-130: from [self.screen_size] and
    [self.chart.height] (an integer), the height passed to
    [self.chart.resize]. *)
Definition resize_height (screen_size : Z * Z) (height : Z) : option Z :=
  let '(x, y) := screen_size in
  let h := height in
  let h_max := (y - 5)%Z in
  if (h_max <=? h)%Z then Some 5%Z
  else match int_times_1_2 h with
       | Some v => Some (Z.min h_max v)
       | None => None
       end.

(** [CandleApp.resize_width], lines 132-138. *)
Definition resize_width (screen_size : Z * Z) (width : Z) : option Z :=
  let '(x, y) := screen_size in
  let w := width in
  let w_max := (x - 3)%Z in
  if (w_max <=? w)%Z then Some 20%Z
  else match int_times_1_2 w with
       | Some v => Some (Z.min w_max v)
       | None => None
       end.

(** [n] presses of the key H on a chart that takes the height it is asked
    to take. *)
Fixpoint press_H (screen_size : Z * Z) (n : nat) (height : Z) : option Z :=
  match n with
  | 0 => Some height
  | S k =>
      match resize_height screen_size height with
      | Some h' => press_H screen_size k h'
      | None => None
      end
  end.

(** [all_below bits base P]: [P] holds of every integer from [base] up to
    [base + 2^bits], excluded. *)
Fixpoint all_below (bits : nat) (base : Z) (P : Z -> bool) : bool :=
  match bits with
  | 0 => P base
  | S k => all_below k base P && all_below k (base + 2 ^ Z.of_nat k)%Z P
  end.

(** The integer part of [6 * h / 5] is what [int(h * 1.2)] gives. *)
Definition times_1_2_exact (h : Z) : bool :=
  match int_times_1_2 h with
  | Some v => (v =? 6 * h / 5)%Z
  | None => false
  end.

(** *** More scenarios *)

(** A world of the example pipeline given by what varies: the flag, the
    bound thread, the threads, and what the controller will call. *)
Definition example_world (flag : bool) (bound : option Tid)
    (ts : list (LoopPc nat)) (p : list (Call nat (list nat))) : World nat (list nat) :=
  {| ds := {| source_gen := Some counting; data_rate := 10;
              thread := bound; paused := flag; sink := Some recorder |};
     gen_pos := 1; sink_st := [1]; threads := ts;
     ctl := CReady; prog := p; trace := [] |}.

(** One loop, bound to [self.thread], at the [while] test after a first
    delivery. *)
Definition running_alone (p : list (Call nat (list nat))) : World nat (list nat) :=
  example_world false (Some 0) [L86 (Some 0)] p.

(** [pause()] on [running_alone]: the call, lines 61 to 63, the loop seeing
    the flag at line 86, then lines 64 and 65. *)
Definition pause_sched : list Actor := [Ctl; Ctl; Ctl; Ctl; Thr 0; Ctl; Ctl].

(** [unpause(); unpause(); pause(); pause()]: thread 1 sets the pipeline
    running and is paused and joined; thread 0, started first and run last,
    then clears [paused] while [self.thread] is [None]. *)
Definition orphan_start : World nat (list nat) :=
  boot demo [] [CallUnpause; CallUnpause; CallPause; CallPause].

Definition orphan_sched : list Actor :=
  unpause_steps ++ unpause_steps ++ [Thr 1; Thr 1] ++ [Ctl; Ctl; Ctl; Ctl]
  ++ [Thr 1; Thr 1] ++ [Ctl; Ctl] ++ [Thr 0; Thr 0].

(** [unpause(); unpause(); pause(); next(); next()] with a first thread that
    is slow to start: thread 1 runs one iteration, thread 0 gets as far as
    line 89, [pause] joins thread 1 and returns; the controller then calls
    [next], thread 0 fetches a value at line 89, and the controller calls
    [next] again. *)
Definition shared_start : World nat (list nat) :=
  boot demo [] [CallUnpause; CallUnpause; CallPause; CallNext; CallNext].

Definition shared_prefix : list Actor :=
  unpause_steps ++ unpause_steps ++ repeat (Thr 1) 8 ++ repeat (Thr 0) 5
  ++ race_pause.

(** A chart all of whose lines are of type [str]. *)
Definition text_chart : ChartOps nat (list nat) nat :=
  {| add_ohlc := fun v st => (st ++ [v], inl tt);
     format := fun st => (st, inl st);
     is_str := fun _ => true;
     update_text := fun _ st => ([], inl tt) |}.

(** ** One loop at a time *)

Section Discipline.

Variable Tick : Type.
Variable SinkSt : Type.

(** A loop thread that has executed line 84: it will not write [paused]
    again. *)
Definition past_84 (pc : LoopPc Tick) : bool :=
  match pc with
  | L85 | L86 _ | L87 _ | L89 _ | L90 _ _ | L91 _ => true
  | _ => false
  end.

Definition winding_down (pc : LoopPc Tick) : Prop :=
  past_84 pc = true \/ finished pc = true.

(** Every thread but [j] has ended. *)
Definition others_finished (j : Tid) (ts : list (LoopPc Tick)) : Prop :=
  forall i pc, i <> j -> ts !! i = Some pc -> finished pc = true.

Definition all_finished (ts : list (LoopPc Tick)) : Prop :=
  Forall (fun pc => finished pc = true) ts.

(** The number of steps a loop thread past line 84 needs at most to end once
    [paused] is set, and the number of values it may still deliver. *)
Definition steps_left (pc : LoopPc Tick) : nat :=
  match pc with
  | L87 _ => 5
  | L89 _ => 4
  | L90 _ _ => 3
  | L91 _ => 2
  | L85 => 2
  | L86 _ => 1
  | _ => 0
  end.

Definition deliveries_left (pc : LoopPc Tick) : nat :=
  match pc with
  | L87 _ | L89 _ | L90 _ _ => 1
  | _ => 0
  end.

(** The worlds of a call [pause()] made while loop [j] is the one running
    loop and is bound to [self.thread]; [rest] is what the controller does
    after the call.  The first case covers the worlds in which the
    controller has gone on to a later call. *)
Definition joining (j : Tid) (rest : list (Call Tick SinkSt)) (w : World Tick SinkSt)
  : Prop :=
  length (prog w) < length rest \/
  (others_finished j (threads w) /\
   (exists pc, threads w !! j = Some pc /\ winding_down pc) /\
   match ctl w with
   | CReady =>
       (prog w = CallPause :: rest /\ paused (ds w) = false /\
        thread (ds w) = Some j) \/
       (prog w = rest /\ paused (ds w) = true /\ thread (ds w) = None /\
        all_finished (threads w))
   | P61 FromTop | P62 FromTop =>
       prog w = rest /\ paused (ds w) = false /\ thread (ds w) = Some j
   | P63 FromTop =>
       prog w = rest /\ paused (ds w) = true /\ thread (ds w) = Some j
   | P64 FromTop t =>
       prog w = rest /\ paused (ds w) = true /\ thread (ds w) = Some j /\
       t = Some j
   | P65 FromTop =>
       prog w = rest /\ paused (ds w) = true /\ all_finished (threads w)
   | _ => False
   end).

(** No loop is alive and the controller neither is in [unpause] nor will
    call it. *)
Definition idle (w : World Tick SinkSt) : Prop :=
  all_finished (threads w) /\
  in_unpause (ctl w) = false /\
  ~ In CallUnpause (prog w).

End Discipline.

(** ** Restarting, eviction and a pipeline without a generator *)

Section Restart.

Variable Tick : Type.
Variable SinkSt : Type.

(** At most one loop is alive, and [pause] can find it: either every thread
    has ended and the flag is set, or the flag is clear and the one thread
    that may be alive is past line 84 and bound to [self.thread]. *)
Definition one_loop_at_most (j : Tid) (w : World Tick SinkSt) : Prop :=
  (paused (ds w) = true /\ all_finished (threads w)) \/
  (paused (ds w) = false /\ thread (ds w) = Some j /\
   others_finished j (threads w) /\
   exists pc, threads w !! j = Some pc /\ winding_down pc).

(** The worlds of a call [unpause()] made in such a state, [n] threads
    having been created before the call. *)
Definition restarting (j : Tid) (n : nat) (rest : list (Call Tick SinkSt))
    (w : World Tick SinkSt) : Prop :=
  length (prog w) < length rest \/
  match ctl w with
  | CReady =>
      (prog w = CallUnpause :: rest /\ length (threads w) = n /\
       one_loop_at_most j w) \/
      (prog w = rest /\ length (threads w) = S n /\
       thread (ds w) = Some n /\ others_finished n (threads w))
  | P61 FromUnpause =>
      prog w = rest /\ length (threads w) = n /\ one_loop_at_most j w
  | P62 FromUnpause =>
      prog w = rest /\ length (threads w) = n /\ paused (ds w) = false /\
      one_loop_at_most j w
  | P63 FromUnpause =>
      prog w = rest /\ length (threads w) = n /\ thread (ds w) = Some j /\
      others_finished j (threads w) /\
      exists pc, threads w !! j = Some pc /\ winding_down pc
  | P64 FromUnpause t =>
      prog w = rest /\ length (threads w) = n /\ t = Some j /\
      others_finished j (threads w) /\
      exists pc, threads w !! j = Some pc /\ winding_down pc
  | P65 FromUnpause | U69 =>
      prog w = rest /\ length (threads w) = n /\ all_finished (threads w)
  | U70 k | U71 k =>
      prog w = rest /\ length (threads w) = S n /\ k = n /\
      thread (ds w) = Some n /\ others_finished n (threads w) /\
      threads w !! n = Some LNotStarted
  | _ => False
  end.

(** The local variable [t] of a loop thread, once line 85 has set it. *)
Definition local_t (pc : LoopPc Tick) : option (option Tid) :=
  match pc with
  | L86 t | L87 t | L89 t | L90 t _ | L91 t => Some t
  | _ => None
  end.

(** The number of steps a loop thread needs at most to end once
    [self.thread] is no longer what it read at line 85. *)
Definition steps_to_eviction (pc : LoopPc Tick) : nat :=
  match pc with
  | L89 _ => 5
  | L90 _ _ => 4
  | L91 _ => 3
  | L86 _ => 2
  | L87 _ => 1
  | _ => 0
  end.

Definition deliveries_to_eviction (pc : LoopPc Tick) : nat :=
  match pc with
  | L89 _ | L90 _ _ => 1
  | _ => 0
  end.

(** What holds of every world of a pipeline built without a generator. *)
Definition no_value_event (ev : Event Tick SinkSt) : Prop :=
  match ev with
  | EvDeliver _ _ _ => False
  | EvReturn CallNext r => r = Returned None
  | EvUncaught _ e => e = ValueError \/ e = TypeError
  | _ => True
  end.

Definition no_value_pc (pc : LoopPc Tick) : Prop :=
  match pc with
  | L90 _ _ | L91 _ => False
  | LRaised e => e = ValueError \/ e = TypeError
  | _ => True
  end.

Definition generatorless (w : World Tick SinkSt) : Prop :=
  source_gen (ds w) = None /\
  gen_pos w = 0 /\
  Forall no_value_pc (threads w) /\
  Forall no_value_event (trace w) /\
  match ctl w with
  | CRaised e => e = AttributeError \/ e = RuntimeError
  | _ => True
  end.

End Restart.

(** ** The application as [main] builds it *)

Section Main.

Variable Tick : Type.
Variable App : Type.
Variable Line : Type.

(** The state of the application after [send] has been called with each of
    the values [vs] in turn. *)
Definition CandleApp_after (ops : ChartOps Tick App Line) (st : App)
    (vs : list Tick) : App :=
  foldl (fun st v => (CandleApp_send ops (Some v) st).1) st vs.

(** [main], lines 163-164: [source = random_source(data_rate=10.0)], then
    [CandleApp(source, ...)]; the world in which the constructor of the
    application is about to bind the sink. *)
Definition main_world (ops : ChartOps Tick App Line)
    (rgen : Generator Tick) (st0 : App) : World Tick App :=
  CandleApp_init ops (boot (@random_source Tick App rgen 10) st0 []).

End Main.

(** ** Properties *)

(** *** Doubles: the error of a rounding *)

Section DoubleFacts.

Local Open Scope Q_scope.

Lemma pow2_pos k : 0 < 2 ^ k.
Proof. apply Qpower_0_lt. reflexivity. Qed.

Lemma pow2_add a b : 2 ^ (a + b) == 2 ^ a * 2 ^ b.
Proof. apply Qpower_plus. discriminate. Qed.

Lemma pow2_le a b : (a <= b)%Z -> 2 ^ a <= 2 ^ b.
Proof. intros H. apply Qpower_le_compat_l; [exact H|]. discriminate. Qed.

Lemma pow2_lt a b : (a < b)%Z -> 2 ^ a < 2 ^ b.
Proof. intros H. apply Qpower_lt_compat_l; [exact H|]. reflexivity. Qed.

Lemma pow2_lt_inv a b : 2 ^ a < 2 ^ b -> (a < b)%Z.
Proof. intros H. apply Qpower_lt_compat_l_inv in H; [exact H|]. reflexivity. Qed.

Lemma pow2_Z k : (0 <= k)%Z -> inject_Z (2 ^ k) == 2 ^ k.
Proof. intros H. apply Zpower_Qpower. exact H. Qed.

Lemma Qmake_mult n d : (n # d) * inject_Z (Zpos d) == inject_Z n.
Proof. unfold Qeq, Qmult, inject_Z. simpl. lia. Qed.

Lemma Qlog2_spec q : 0 < q -> 2 ^ Qlog2 q <= q /\ q < 2 ^ (Qlog2 q + 1).
Proof.
  intros Hq. destruct q as [n d].
  assert (Hn : (0 < n)%Z) by (unfold Qlt in Hq; simpl in Hq; lia).
  unfold Qlog2. cbn [Qnum Qden].
  pose proof (Z.log2_spec n Hn) as [Ha1 Ha2].
  pose proof (Z.log2_spec (Zpos d) eq_refl) as [Hb1 Hb2].
  pose proof (Z.log2_nonneg n) as Ha0.
  pose proof (Z.log2_nonneg (Zpos d)) as Hb0.
  set (a := Z.log2 n) in *. set (b := Z.log2 (Zpos d)) in *.
  rewrite Zle_Qle in Ha1, Hb1. rewrite Zlt_Qlt in Ha2, Hb2.
  rewrite pow2_Z in Ha1, Hb1, Ha2, Hb2 by lia.
  pose proof (Qmake_mult n d) as Hm.
  assert (Hd : 0 < inject_Z (Zpos d)) by reflexivity.
  pose proof (pow2_pos (a - b)) as P0.
  pose proof (pow2_pos (a - b - 1)) as P1.
  pose proof (pow2_pos (a - b + 1)) as P2.
  pose proof (pow2_pos b) as Pb.
  assert (E1 : 2 ^ Z.succ a == 2 ^ (a - b + 1) * 2 ^ b)
    by (rewrite <- pow2_add; apply Qpower_comp; [reflexivity|lia]).
  assert (E2 : 2 ^ a == 2 ^ (a - b - 1) * 2 ^ Z.succ b)
    by (rewrite <- pow2_add; apply Qpower_comp; [reflexivity|lia]).
  assert (E3 : 2 ^ (a - b - 1 + 1) == 2 ^ (a - b))
    by (apply Qpower_comp; [reflexivity|lia]).
  destruct (Qle_bool (2 ^ (a - b)) (n # d)) eqn:E.
  - apply Qle_bool_iff in E. split; [exact E|].
    apply (Qmult_lt_r _ _ _ Hd). rewrite Hm. nra.
  - assert (Hlt : n # d < 2 ^ (a - b)).
    { apply Qnot_le_lt. intros H. apply Qle_bool_iff in H. congruence. }
    split; [|rewrite E3; exact Hlt].
    apply (Qmult_le_r _ _ _ Hd). rewrite Hm. nra.
Qed.

Lemma round_half_even_spec x :
  x - (1 # 2) <= inject_Z (round_half_even x) /\
  inject_Z (round_half_even x) <= x + (1 # 2).
Proof.
  unfold round_half_even.
  pose proof (Qfloor_le x) as H1. pose proof (Qlt_floor x) as H2.
  rewrite inject_Z_plus in H2.
  assert (Hs : inject_Z (Qfloor x + 1) == inject_Z (Qfloor x) + 1)
    by (rewrite inject_Z_plus; reflexivity).
  change (inject_Z 1) with 1 in H2.
  destruct (Qcompare_spec (x - inject_Z (Qfloor x)) (1 # 2)) as [H|H|H].
  - destruct (Z.even (Qfloor x)); rewrite ?Hs; lra.
  - lra.
  - rewrite Hs. lra.
Qed.

Lemma roundoff_pow2 : unit_roundoff == 2 ^ (-53).
Proof. reflexivity. Qed.

Lemma nearest_double_normal q :
  2 ^ (-1022) <= q -> q <= 2 ^ 1023 ->
  exists v, nearest_double q = Some v /\
            q * (1 - unit_roundoff) <= v /\ v <= q * (1 + unit_roundoff).
Proof.
  intros Hlo Hhi.
  assert (Hq : 0 < q) by (pose proof (pow2_pos (-1022)); lra).
  destruct (@Qlog2_spec q Hq) as [L1 L2].
  assert (He : (-1022 <= Qlog2 q)%Z).
  { assert (2 ^ (-1022) < 2 ^ (Qlog2 q + 1)) as H by lra.
    apply pow2_lt_inv in H. lia. }
  unfold nearest_double.
  rewrite Z.max_l by exact He.
  set (e := Qlog2 q) in *.
  set (ulp := 2 ^ (e - 52)).
  assert (Hulp : 0 < ulp) by apply pow2_pos.
  destruct (round_half_even_spec (q / ulp)) as [R1 R2].
  set (m := inject_Z (round_half_even (q / ulp))) in *.
  assert (Hx : q / ulp * ulp == q) by (field; lra).
  assert (Hhalf : ulp * (1 # 2) <= q * unit_roundoff).
  { assert (ulp * (1 # 2) == 2 ^ e * unit_roundoff) as ->.
    { unfold ulp. rewrite roundoff_pow2.
      assert (2 ^ (e - 52) == 2 ^ e * 2 ^ (-52)) as ->
        by (rewrite <- pow2_add; apply Qpower_comp; [reflexivity|lia]).
      assert (2 ^ (-52) * (1 # 2) == 2 ^ (-53)) as <- by reflexivity.
      ring. }
    apply Qmult_le_compat_r; [exact L1|discriminate]. }
  assert (V1 : q * (1 - unit_roundoff) <= m * ulp) by nra.
  assert (V2 : m * ulp <= q * (1 + unit_roundoff)) by nra.
  assert (Hfin : Qle_bool (2 ^ 1024) (m * ulp) = false).
  { destruct (Qle_bool (2 ^ 1024) (m * ulp)) eqn:E; [|reflexivity].
    apply Qle_bool_iff in E. exfalso.
    assert (2 ^ 1023 * (1 + unit_roundoff) < 2 ^ 1024) by reflexivity.
    assert (q * (1 + unit_roundoff) <= 2 ^ 1023 * (1 + unit_roundoff))
      by (apply Qmult_le_compat_r; [exact Hhi|discriminate]).
    lra. }
  rewrite Hfin. eexists. split; [reflexivity|].
  rewrite Qred_correct. split; assumption.
Qed.


Lemma to_double_positive q :
  2 ^ (-1022) <= q -> q <= 2 ^ 1023 ->
  exists v, to_double q = Finite v /\ q * (1 - unit_roundoff) <= v /\ v <= q * (1 + unit_roundoff).
Proof.
  intros Hlo Hhi.
  assert (Hq : 0 < q) by (pose proof (pow2_pos (-1022)); lra).
  destruct (@nearest_double_normal q Hlo Hhi) as (v & Hv & B).
  exists v. split; [|exact B].
  unfold to_double.
  assert (Hc : (q ?= 0) = Gt) by (by apply Qgt_alt).
  by rewrite Hc, Hv.
Qed.

Lemma to_double_negative q :
  2 ^ (-1022) <= - q -> - q <= 2 ^ 1023 ->
  exists v, to_double q = Finite (- v) /\
            - q * (1 - unit_roundoff) <= v /\ v <= - q * (1 + unit_roundoff).
Proof.
  intros Hlo Hhi.
  assert (Hq : q < 0) by (pose proof (pow2_pos (-1022)); lra).
  destruct (@nearest_double_normal (- q) Hlo Hhi) as (v & Hv & B).
  exists v. split; [|exact B].
  unfold to_double.
  assert (Hc : (q ?= 0) = Lt) by (by apply Qlt_alt).
  by rewrite Hc, Hv.
Qed.

Lemma inverse_in_range f :
  2 ^ (-1022) <= f -> f <= 2 ^ 1022 ->
  2 ^ (-1022) <= 1 / f /\ 1 / f <= 2 ^ 1023.
Proof.
  intros Hlo Hhi.
  assert (Hf : 0 < f) by (pose proof (pow2_pos (-1022)); lra).
  split.
  - apply Qle_shift_div_l; [exact Hf|].
    assert (2 ^ (-1022) * 2 ^ 1022 == 1) as E by reflexivity.
    assert (2 ^ (-1022) * f <= 2 ^ (-1022) * 2 ^ 1022)
      by (apply Qmult_le_l; [apply pow2_pos|exact Hhi]).
    lra.
  - apply Qle_shift_div_r; [exact Hf|].
    assert (2 ^ 1023 * 2 ^ (-1022) == 2) as E by reflexivity.
    assert (2 ^ 1023 * 2 ^ (-1022) <= 2 ^ 1023 * f)
      by (apply Qmult_le_l; [apply pow2_pos|exact Hlo]).
    lra.
Qed.

Lemma sleep_length_in_range r :
  2 ^ (-1021) <= r -> r <= 2 ^ 1021 ->
  exists secs,
    sleep_length r = inl (Finite secs) /\
    1 - quotient_error <= secs * r /\ secs * r <= 1 + quotient_error.
Proof.
  intros Hlo Hhi.
  assert (Hr : 0 < r) by (pose proof (pow2_pos (-1021)); lra).
  destruct (@to_double_positive r) as (f & Hf & F1 & F2).
  { assert (2 ^ (-1022) <= 2 ^ (-1021)) by (apply pow2_le; lia). lra. }
  { assert (2 ^ 1021 <= 2 ^ 1023) by (apply pow2_le; lia). lra. }
  assert (Hf0 : 0 < f) by (unfold unit_roundoff in F1; nra).
  assert (Hflo : 2 ^ (-1022) <= f).
  { assert (2 ^ (-1022) <= 2 ^ (-1021) * (1 - unit_roundoff))
      by (apply Qle_bool_iff; vm_compute; reflexivity).
    assert (2 ^ (-1021) * (1 - unit_roundoff) <= r * (1 - unit_roundoff))
      by (apply Qmult_le_compat_r; [exact Hlo|discriminate]).
    lra. }
  assert (Hfhi : f <= 2 ^ 1022).
  { assert (2 ^ 1021 * (1 + unit_roundoff) <= 2 ^ 1022)
      by (apply Qle_bool_iff; vm_compute; reflexivity).
    assert (r * (1 + unit_roundoff) <= 2 ^ 1021 * (1 + unit_roundoff))
      by (apply Qmult_le_compat_r; [exact Hhi|discriminate]).
    lra. }
  destruct (@inverse_in_range f Hflo Hfhi) as [I1 I2].
  destruct (@to_double_positive (1 / f) I1 I2) as (s & Hs & S1 & S2).
  exists s. split.
  - unfold sleep_length, float_of, one_over. rewrite Hf.
    destruct (Qeq_bool f 0) eqn:E; [|by rewrite Hs].
    apply Qeq_bool_iff in E. lra.
  - assert (Hs0 : 0 <= s).
    { assert (0 <= 1 / f * (1 - unit_roundoff)); [|lra].
      apply Qmult_le_0_compat; [|discriminate].
      apply Qle_shift_div_l; [exact Hf0|lra]. }
    assert (E : 1 / f * f == 1) by (field; lra).
    assert (P1 : 1 - unit_roundoff <= s * f).
    { assert (1 / f * (1 - unit_roundoff) * f <= s * f)
        by (apply Qmult_le_compat_r; [exact S1|lra]).
      assert (1 / f * (1 - unit_roundoff) * f == 1 - unit_roundoff) as E' by (field; lra).
      lra. }
    assert (P2 : s * f <= 1 + unit_roundoff).
    { assert (s * f <= 1 / f * (1 + unit_roundoff) * f)
        by (apply Qmult_le_compat_r; [exact S2|lra]).
      assert (1 / f * (1 + unit_roundoff) * f == 1 + unit_roundoff) as E' by (field; lra).
      lra. }
    assert (Q1 : s * f <= s * (r * (1 + unit_roundoff))) by nra.
    assert (Q2 : s * (r * (1 - unit_roundoff)) <= s * f) by nra.
    unfold unit_roundoff, quotient_error in *. split; lra.
Qed.

Lemma sleep_length_negative r :
  2 ^ (-1021) <= - r -> - r <= 2 ^ 1021 ->
  exists secs,
    sleep_length r = inl (Finite (- secs)) /\
    1 - quotient_error <= secs * - r /\ secs * - r <= 1 + quotient_error.
Proof.
  intros Hlo Hhi.
  assert (Hr : r < 0) by (pose proof (pow2_pos (-1021)); lra).
  destruct (@to_double_negative r) as (f & Hf & F1 & F2).
  { assert (2 ^ (-1022) <= 2 ^ (-1021)) by (apply pow2_le; lia). lra. }
  { assert (2 ^ 1021 <= 2 ^ 1023) by (apply pow2_le; lia). lra. }
  assert (Hf0 : 0 < f) by (unfold unit_roundoff in F1; nra).
  assert (Hflo : 2 ^ (-1022) <= f).
  { assert (2 ^ (-1022) <= 2 ^ (-1021) * (1 - unit_roundoff))
      by (apply Qle_bool_iff; vm_compute; reflexivity).
    assert (2 ^ (-1021) * (1 - unit_roundoff) <= - r * (1 - unit_roundoff))
      by (apply Qmult_le_compat_r; [exact Hlo|discriminate]).
    lra. }
  assert (Hfhi : f <= 2 ^ 1022).
  { assert (2 ^ 1021 * (1 + unit_roundoff) <= 2 ^ 1022)
      by (apply Qle_bool_iff; vm_compute; reflexivity).
    assert (- r * (1 + unit_roundoff) <= 2 ^ 1021 * (1 + unit_roundoff))
      by (apply Qmult_le_compat_r; [exact Hhi|discriminate]).
    lra. }
  destruct (@inverse_in_range f Hflo Hfhi) as [I1 I2].
  assert (E0 : - (1 / - f) == 1 / f) by (field; lra).
  destruct (@to_double_negative (1 / - f)) as (s & Hs & S1 & S2);
    [lra|lra|].
  rewrite E0 in S1, S2.
  exists s. split.
  - unfold sleep_length, float_of, one_over. rewrite Hf.
    destruct (Qeq_bool (- f) 0) eqn:E; [|by rewrite Hs].
    apply Qeq_bool_iff in E. lra.
  - assert (Hs0 : 0 <= s).
    { assert (0 <= 1 / f * (1 - unit_roundoff)); [|lra].
      apply Qmult_le_0_compat; [|discriminate].
      apply Qle_shift_div_l; [exact Hf0|lra]. }
    assert (P1 : 1 - unit_roundoff <= s * f).
    { assert (1 / f * (1 - unit_roundoff) * f <= s * f)
        by (apply Qmult_le_compat_r; [exact S1|lra]).
      assert (1 / f * (1 - unit_roundoff) * f == 1 - unit_roundoff) as E' by (field; lra).
      lra. }
    assert (P2 : s * f <= 1 + unit_roundoff).
    { assert (s * f <= 1 / f * (1 + unit_roundoff) * f)
        by (apply Qmult_le_compat_r; [exact S2|lra]).
      assert (1 / f * (1 + unit_roundoff) * f == 1 + unit_roundoff) as E' by (field; lra).
      lra. }
    assert (Q1 : s * f <= s * (- r * (1 + unit_roundoff))) by nra.
    assert (Q2 : s * (- r * (1 - unit_roundoff)) <= s * f) by nra.
    unfold unit_roundoff, quotient_error in *. split; lra.
Qed.

(** CPython refuses a negative duration with [ValueError] as long as it is
    not beyond the range of the conversion. *)
Lemma cpython_refuses_negative secs :
  2 ^ (-1022) <= secs -> secs <= 2 ^ 33 * (1 + quotient_error) ->
  cpython_sleep (Finite (- secs)) = Some ValueError.
Proof.
  intros Hlo Hhi.
  assert (H0 : 0 < secs) by (pose proof (pow2_pos (-1022)); lra).
  unfold cpython_sleep.
  destruct (@to_double_negative (- secs * 1000000000)) as (d & Hd & D1 & D2).
  { lra. }
  { assert (2 ^ 33 * (1 + quotient_error) * 1000000000 <= 2 ^ 1023)
      by (apply Qle_bool_iff; vm_compute; reflexivity).
    lra. }
  rewrite Hd.
  assert (Hd0 : 0 < d) by (unfold unit_roundoff in D1; lra).
  assert (Hneg : Qle_bool 0 (- d) = false).
  { destruct (Qle_bool 0 (- d)) eqn:E; [|reflexivity].
    apply Qle_bool_iff in E. lra. }
  rewrite Hneg.
  assert (Hhi' : d <= inject_Z (2 ^ 63 - 1)).
  { assert (2 ^ 33 * (1 + quotient_error) * 1000000000 * (1 + unit_roundoff) <= inject_Z (2 ^ 63 - 1))
      by (apply Qle_bool_iff; vm_compute; reflexivity).
    unfold unit_roundoff in *. lra. }
  assert (F1 : (- (2 ^ 63 - 1) <= Qfloor (- d))%Z).
  { rewrite <- (Qfloor_Z (- (2 ^ 63 - 1))). apply Qfloor_resp_le.
    rewrite inject_Z_opp. lra. }
  assert (F2 : (Qfloor (- d) < 0)%Z).
  { rewrite Zlt_Qlt. pose proof (Qfloor_le (- d)). change (inject_Z 0) with 0.
    lra. }
  destruct (Z.ltb_spec (Qfloor (- d)) (- 2 ^ 63)); [lia|].
  destruct (Z.ltb_spec (2 ^ 63) (Qfloor (- d))); [lia|].
  destruct (Z.ltb_spec (Qfloor (- d)) 0); [reflexivity|lia].
Qed.

(** With a rate between [- 2^1021] and [- 2^-33], line 91 hands CPython's
    [time.sleep] a negative duration that it refuses with [ValueError]. *)
Lemma cpython_refuses_negative_rate r :
  - 2 ^ 1021 <= r -> r <= - 2 ^ (-33) ->
  exists secs,
    sleep_length r = inl (Finite (- secs)) /\
    0 < secs /\
    cpython_sleep (Finite (- secs)) = Some ValueError.
Proof.
  intros Hlo Hhi.
  assert (P1 : 2 ^ (-1021) <= 2 ^ (-33)) by (apply pow2_le; lia).
  destruct (@sleep_length_negative r) as (secs & Hsecs & B1 & B2);
    [lra|lra|].
  assert (Hr : 0 < - r) by (pose proof (pow2_pos (-33)); lra).
  assert (Hs : 0 < secs) by (unfold quotient_error in B1; nra).
  exists secs. split; [exact Hsecs|]. split; [exact Hs|].
  apply cpython_refuses_negative.
  - assert (E : 2 ^ (-1022) * 2 ^ 1021 == 1 # 2) by reflexivity.
    assert (H1 : secs * - r <= secs * 2 ^ 1021) by nra.
    apply (Qmult_le_r _ _ (2 ^ 1021)); [apply pow2_pos|].
    unfold quotient_error in *. lra.
  - assert (E : 2 ^ 33 * (1 + quotient_error) * 2 ^ (-33)
                == 1 + quotient_error) by reflexivity.
    assert (H1 : secs * 2 ^ (-33) <= secs * - r) by nra.
    apply (Qmult_le_r _ _ (2 ^ (-33))); [apply pow2_pos|].
    lra.
Qed.

(** CPython accepts a positive duration of up to [2^33] seconds, about 272
    years. *)
Lemma cpython_accepts_positive secs :
  2 ^ (-1022) <= secs -> secs <= 2 ^ 33 * (1 + quotient_error) ->
  cpython_sleep (Finite secs) = None.
Proof.
  intros Hlo Hhi.
  assert (H0 : 0 < secs) by (pose proof (pow2_pos (-1022)); lra).
  unfold cpython_sleep.
  destruct (@to_double_positive (secs * 1000000000)) as (d & Hd & D1 & D2).
  { lra. }
  { assert (2 ^ 33 * (1 + quotient_error) * 1000000000 <= 2 ^ 1023)
      by (apply Qle_bool_iff; vm_compute; reflexivity).
    lra. }
  rewrite Hd.
  assert (Hd0 : 0 < d) by (unfold unit_roundoff in D1; lra).
  assert (Hpos : Qle_bool 0 d = true) by (apply Qle_bool_iff; lra).
  rewrite Hpos.
  assert (Hhi' : d <= inject_Z (2 ^ 63 - 1)).
  { assert (2 ^ 33 * (1 + quotient_error) * 1000000000 * (1 + unit_roundoff)
            <= inject_Z (2 ^ 63 - 1))
      by (apply Qle_bool_iff; vm_compute; reflexivity).
    unfold unit_roundoff in *. lra. }
  assert (F1 : (Qceiling d <= 2 ^ 63 - 1)%Z).
  { rewrite <- (Qceiling_Z (2 ^ 63 - 1)). by apply Qceiling_resp_le. }
  assert (F2 : (0 <= Qceiling d)%Z).
  { rewrite Zle_Qle. pose proof (Qle_ceiling d). change (inject_Z 0) with 0.
    lra. }
  destruct (Z.ltb_spec (Qceiling d) (- 2 ^ 63)); [lia|].
  destruct (Z.ltb_spec (2 ^ 63) (Qceiling d)); [lia|].
  destruct (Z.ltb_spec (Qceiling d) 0); [lia|].
  destruct (Z.eqb_spec (Qceiling d) (2 ^ 63)); [lia|reflexivity].
Qed.

(** On CPython line 91 sleeps at every rate from [2^-33] to [2^1021]. *)
Lemma cpython_sleeps_at_rate r :
  2 ^ (-33) <= r -> r <= 2 ^ 1021 ->
  exists secs,
    sleep_length r = inl (Finite secs) /\
    cpython_sleep (Finite secs) = None.
Proof.
  intros Hlo Hhi.
  assert (P1 : 2 ^ (-1021) <= 2 ^ (-33)) by (apply pow2_le; lia).
  destruct (@sleep_length_in_range r) as (secs & Hsecs & B1 & B2);
    [lra|lra|].
  assert (Hr : 0 < r) by (pose proof (pow2_pos (-33)); lra).
  assert (Hs : 0 < secs) by (unfold quotient_error in B1; nra).
  exists secs. split; [exact Hsecs|].
  apply cpython_accepts_positive.
  - assert (E : 2 ^ (-1022) * 2 ^ 1021 == 1 # 2) by reflexivity.
    assert (H1 : secs * r <= secs * 2 ^ 1021) by nra.
    apply (Qmult_le_r _ _ (2 ^ 1021)); [apply pow2_pos|].
    unfold quotient_error in *. lra.
  - assert (E : 2 ^ 33 * (1 + quotient_error) * 2 ^ (-33)
                == 1 + quotient_error) by reflexivity.
    assert (H1 : secs * 2 ^ (-33) <= secs * r) by nra.
    apply (Qmult_le_r _ _ (2 ^ (-33))); [apply pow2_pos|].
    lra.
Qed.

(** The two durations of the examples. *)
Lemma doubles_of_the_examples :
  to_double (1 # 10) = Finite tenth /\
  sleep_length 10 = inl (Finite tenth) /\
  to_double (1 # 100000000000) = Finite one_per_1e11 /\
  sleep_length one_per_1e11 = inl (Finite 100000000000).
Proof. repeat split; vm_compute; reflexivity. Qed.

End DoubleFacts.

Section Facts.

Variable Tick : Type.
Variable SinkSt : Type.
Context {platform : Platform}.

#[local] Abbreviation World := (World Tick SinkSt).
#[local] Abbreviation DataSource := (DataSource Tick SinkSt).

Implicit Types (w : World) (d : DataSource) (i j : Tid) (pc : LoopPc Tick).

Lemma run_app (s1 s2 : list Actor) w :
  run (s1 ++ s2) w = match run s1 w with
                     | Some w' => run s2 w'
                     | None => None
                     end.
Proof.
  revert w. induction s1 as [|a s1 IH]; intros w; simpl; [done|].
  destruct (step a w); [apply IH | done].
Qed.

Lemma finished_stuck w i pc :
  threads w !! i = Some pc -> finished pc = true -> step (Thr i) w = None.
Proof.
  intros H Hf. simpl. unfold loop_step. rewrite H.
  destruct pc; simpl in Hf; congruence.
Qed.

(** Line 91 with a rate that is not 0: the duration is computed and handed
    to [time.sleep]. *)
Lemma line_91_sleep_length (r : Q) secs :
  ~ (r == 0)%Q ->
  sleep_length r = inl secs ->
  line_91 r = match time_sleep secs with
              | Some e => inr e
              | None => inl (Some secs)
              end.
Proof.
  intros Hr Hs. unfold line_91. rewrite Hs.
  destruct (Qeq_bool r 0) eqn:E; [|done].
  by apply Qeq_bool_iff in E.
Qed.

(** C4. [pause] on a paused pipeline: the call returns at line 61, after the
    test of [self.paused] and without reaching [join]; no field of the
    [DataSource], no thread, neither the generator nor the sink is touched. *)
Theorem pause_idempotent w rest :
  ctl w = CReady ->
  prog w = CallPause :: rest ->
  paused (ds w) = true ->
  exists w',
    run [Ctl; Ctl] w = Some w' /\
    ds w' = ds w /\
    threads w' = threads w /\
    gen_pos w' = gen_pos w /\
    sink_st w' = sink_st w /\
    ctl w' = CReady /\
    prog w' = rest /\
    trace w' = EvReturn CallPause (Returned None) :: EvCall CallPause :: trace w.
Proof.
  intros Hc Hp Hpaused.
  eexists. split.
  - simpl. unfold ctl_step. rewrite Hc, Hp. simpl. rewrite Hpaused. reflexivity.
  - simpl. repeat split; reflexivity.
Qed.

(** The rates at which line 91 raises nothing on CPython include 0 and
    every rate from [2^-33] to [2^1021]. *)
Lemma line_91_returns_on_cpython (r : Q) :
  (forall secs, time_sleep secs = cpython_sleep secs) ->
  (r == 0)%Q \/ ((2 ^ (-33) <= r)%Q /\ (r <= 2 ^ 1021)%Q) ->
  forall e, line_91 r <> inr e.
Proof.
  intros Hcpython [Hz|[Hlo Hhi]] e.
  - unfold line_91. apply Qeq_bool_iff in Hz. by rewrite Hz.
  - destruct (cpython_sleeps_at_rate Hlo Hhi) as (secs & Hsecs & Hok).
    assert (Hnz : ~ (r == 0)%Q).
    { intros Hz. rewrite Hz in Hlo. by apply Qle_bool_iff in Hlo. }
    by rewrite (line_91_sleep_length Hnz Hsecs), Hcpython, Hok.
Qed.

(** The step of line 90 when [send] returns, and the step of line 91. *)
Lemma deliver_step w i t v (s : Sink Tick SinkSt) :
  threads w !! i = Some (L90 t v) ->
  sink (ds w) = Some s ->
  out_exn (send s (sink_st w) v) = None ->
  step (Thr i) w
  = Some (set_pc i (L91 t)
            (emit (EvDeliver i v None
                   :: map EvLog (out_logs (send s (sink_st w) v)))
                  (set_sink_st (out_state (send s (sink_st w) v)) w))).
Proof.
  intros Hpc Hs Hok. simpl. unfold loop_step. rewrite Hpc, Hs. simpl.
  by rewrite Hok.
Qed.

Lemma line_91_step w i t :
  threads w !! i = Some (L91 t) ->
  step (Thr i) w
  = match line_91 (data_rate (ds w)) with
    | inl None => Some (set_pc i (L86 t) w)
    | inl (Some secs) => Some (emit [EvSleep i secs] (set_pc i (L86 t) w))
    | inr e => Some (die i e w)
    end.
Proof. intros Hpc. simpl. unfold loop_step. by rewrite Hpc. Qed.

(** C5. After a delivery the loop reaches line 91.  With rate 0 it goes
    back to the [while] test at once, and no sleep separates the delivery
    from the next test.  With a rate between [2^-1021] and [2^1021] it calls
    [time.sleep] with the double [1.0 / float(rate)], a duration [secs] such
    that [secs * rate] is within [2^-51] of 1; when that call returns, the
    thread has slept [secs] and is back at the [while] test; when it raises,
    the exception escapes from [loop] and ends the thread. *)
Theorem rate_limiting w i t v (s : Sink Tick SinkSt) :
  threads w !! i = Some (L90 t v) ->
  sink (ds w) = Some s ->
  out_exn (send s (sink_st w) v) = None ->
  ((data_rate (ds w) == 0)%Q ->
     exists w',
       run [Thr i; Thr i] w = Some w' /\
       threads w' !! i = Some (L86 t) /\
       trace w' = EvDeliver i v None
                  :: map EvLog (out_logs (send s (sink_st w) v)) ++ trace w) /\
  ((2 ^ (-1021) <= data_rate (ds w))%Q ->
   (data_rate (ds w) <= 2 ^ 1021)%Q ->
     exists secs,
       sleep_length (data_rate (ds w)) = inl (Finite secs) /\
       (1 - quotient_error <= secs * data_rate (ds w))%Q /\
       (secs * data_rate (ds w) <= 1 + quotient_error)%Q /\
       (time_sleep (Finite secs) = None ->
          exists w',
            run [Thr i; Thr i] w = Some w' /\
            threads w' !! i = Some (L86 t) /\
            trace w' = EvSleep i (Finite secs)
                       :: EvDeliver i v None
                       :: map EvLog (out_logs (send s (sink_st w) v))
                       ++ trace w) /\
       (forall e, time_sleep (Finite secs) = Some e ->
          exists w',
            run [Thr i; Thr i] w = Some w' /\
            threads w' !! i = Some (LRaised e) /\
            step (Thr i) w' = None /\
            trace w' = EvUncaught i e
                       :: EvDeliver i v None
                       :: map EvLog (out_logs (send s (sink_st w) v))
                       ++ trace w)).
Proof.
  intros Hpc Hs Hok.
  assert (Hlt : i < length (threads w)) by (eapply lookup_lt_Some, Hpc).
  set (w1 := set_pc i (L91 t)
               (emit (EvDeliver i v None
                      :: map EvLog (out_logs (send s (sink_st w) v)))
                     (set_sink_st (out_state (send s (sink_st w) v)) w))).
  assert (Hpc1 : threads w1 !! i = Some (L91 t))
    by (by apply list_lookup_insert_eq).
  assert (Hrun : run [Thr i; Thr i] w
                 = match line_91 (data_rate (ds w)) with
                   | inl None => Some (set_pc i (L86 t) w1)
                   | inl (Some secs) =>
                       Some (emit [EvSleep i secs] (set_pc i (L86 t) w1))
                   | inr e => Some (die i e w1)
                   end).
  { change (run [Thr i; Thr i] w)
      with (match step (Thr i) w with
            | Some w' => run [Thr i] w'
            | None => None
            end).
    rewrite (deliver_step _ _ Hpc Hs Hok). fold w1.
    change (run [Thr i] w1)
      with (match step (Thr i) w1 with
            | Some w' => Some w'
            | None => None
            end).
    rewrite (line_91_step _ _ Hpc1).
    by destruct (line_91 _) as [[secs|]|e]. }
  rewrite Hrun. clear Hrun.
  assert (Hback : forall w2 : World,
            threads w2 = threads w1 ->
            threads (set_pc i (L86 t) w2) !! i = Some (L86 t)).
  { intros w2 Hw2. simpl. rewrite Hw2. apply list_lookup_insert_eq.
    subst w1. simpl. by rewrite length_insert. }
  split.
  - intros Hz. unfold line_91. apply Qeq_bool_iff in Hz. rewrite Hz.
    eexists. split; [reflexivity|]. split; [by apply Hback|done].
  - intros Hlo Hhi.
    destruct (sleep_length_in_range Hlo Hhi) as (secs & Hsecs & B1 & B2).
    assert (Hnz : ~ (data_rate (ds w) == 0)%Q).
    { intros Hz. rewrite Hz in Hlo. by apply Qle_bool_iff in Hlo. }
    exists secs. split; [done|]. split; [done|]. split; [done|].
    rewrite (line_91_sleep_length Hnz Hsecs). split.
    + intros ->. eexists. split; [reflexivity|].
      split; [by apply Hback|done].
    + intros e ->. eexists. split; [reflexivity|].
      assert (Hdead : threads (die i e w1) !! i = Some (LRaised e)).
      { simpl. apply list_lookup_insert_eq. by rewrite length_insert. }
      split; [exact Hdead|]. split; [|done].
      eapply finished_stuck; [exact Hdead|done].
Qed.

(** C8. When the generator is exhausted at line 89, [StopIteration] escapes
    from [loop]: the thread ends there and never moves again, nothing is
    delivered, the exception is reported on the thread's side only, and the
    [DataSource] is left as it was ([paused] keeps its value, [thread] stays
    bound); the controller is not affected. *)
Theorem generator_exhaustion w i t (g : Generator Tick) :
  threads w !! i = Some (L89 t) ->
  source_gen (ds w) = Some g ->
  g (gen_pos w) = None ->
  exists w',
    step (Thr i) w = Some w' /\
    threads w' = <[i := LRaised StopIteration]> (threads w) /\
    step (Thr i) w' = None /\
    ds w' = ds w /\
    ctl w' = ctl w /\
    prog w' = prog w /\
    gen_pos w' = gen_pos w /\
    sink_st w' = sink_st w /\
    trace w' = EvUncaught i StopIteration :: trace w.
Proof.
  intros Hpc Hg Hnone.
  eexists. split.
  - simpl. unfold loop_step, gen_next. rewrite Hpc, Hg, Hnone. reflexivity.
  - split; [reflexivity|]. split; [|by repeat split].
    eapply finished_stuck;
      [simpl; apply list_lookup_insert_eq; eapply lookup_lt_Some, Hpc
      |reflexivity].
Qed.

(** C10. A call of [next] by the controller returns in two steps and leaves
    the [DataSource] record, the threads and the sink untouched.  The cursor
    of the generator moves by one when a generator is bound and yields, and
    not at all when no generator is bound. *)
Theorem next_frame w rest :
  ctl w = CReady ->
  prog w = CallNext :: rest ->
  exists w',
    run [Ctl; Ctl] w = Some w' /\
    ds w' = ds w /\
    threads w' = threads w /\
    sink_st w' = sink_st w /\
    prog w' = rest /\
    trace w' = EvReturn CallNext (DataSource_next (ds w) (gen_pos w)).1
               :: EvCall CallNext :: trace w /\
    gen_pos w' = (DataSource_next (ds w) (gen_pos w)).2 /\
    (source_gen (ds w) = None -> gen_pos w' = gen_pos w) /\
    (forall g v,
       source_gen (ds w) = Some g -> g (gen_pos w) = Some v ->
       gen_pos w' = S (gen_pos w) /\
       (DataSource_next (ds w) (gen_pos w)).1 = Returned (Some v)) /\
    (forall g,
       source_gen (ds w) = Some g -> g (gen_pos w) = None ->
       gen_pos w' = gen_pos w /\ ctl w' = CRaised StopIteration).
Proof.
  intros Hc Hp.
  simpl. unfold ctl_step at 1. rewrite Hc, Hp. simpl.
  unfold ctl_step. simpl.
  unfold DataSource_next, gen_next.
  destruct (source_gen (ds w)) as [g|] eqn:Hg.
  - destruct (g (gen_pos w)) as [v|] eqn:Hv; simpl.
    + eexists. split; [reflexivity|]. simpl.
      repeat split; try done; intros; simplify_eq; done.
    + eexists. split; [reflexivity|]. simpl.
      repeat split; try done; intros; simplify_eq; done.
  - eexists. split; [reflexivity|]. simpl.
    repeat split; try done; intros; simplify_eq; done.
Qed.

(** *** A pipeline without a sink *)

Lemma sinkless_boot g rate s0 p :
  sinkless (boot (DataSource_init g rate (None : option (Sink Tick SinkSt))) s0 p).
Proof. by constructor. Qed.

(** A step adds events to the trace and removes none. *)
Lemma step_trace_grows a w w' :
  step a w = Some w' -> exists evs, trace w' = evs ++ trace w.
Proof.
  intros Hstep. destruct a as [|i]; simpl in Hstep.
  - unfold ctl_step, pause_returns, ctl_raise, DataSource_next, gen_next
      in Hstep.
    repeat case_match; simplify_eq; simpl;
      first [by exists [] | by eexists [_] | by eexists [_; _]
            | by eexists (_ :: _ :: _) | by eexists (_ :: _)].
  - unfold loop_step, gen_next in Hstep.
    repeat case_match; simplify_eq; simpl;
      first [by exists [] | by eexists [_] | by eexists [_; _]
            | by eexists (_ :: _ :: _) | by eexists (_ :: _)].
Qed.

Lemma run_trace_grows sched : forall w w',
  run sched w = Some w' -> exists evs, trace w' = evs ++ trace w.
Proof.
  induction sched as [|a sched IH]; intros w w' Hrun; simpl in Hrun.
  - simplify_eq. by exists [].
  - destruct (step a w) as [w1|] eqn:Hstep; [|done].
    destruct (step_trace_grows _ _ Hstep) as [evs1 H1].
    destruct (IH _ _ Hrun) as [evs2 H2].
    exists (evs2 ++ evs1). by rewrite H2, H1, app_assoc.
Qed.

Lemma sinkless_step a w w' :
  sinkless w -> step a w = Some w' ->
  sinkless w' \/ sink_assigned (trace w').
Proof.
  intros [Hs Hp Ht Hc Htr] Hstep. destruct a as [|i]; simpl in Hstep.
  - unfold ctl_step in Hstep.
    destruct (ctl w) eqn:Ec; try done; simpl in *.
    + destruct (prog w) as [|c rest]; [done|].
      destruct c; simplify_eq;
        [left; constructor; simpl; rewrite ?Ec; auto ..|].
      right. eexists. by left.
    + rewrite Hp in Hstep. simplify_eq. left.
      destruct k; constructor; simpl; auto.
    + simplify_eq. left. constructor; simpl; auto.
      apply Forall_app; split; [done|]. repeat constructor.
    + simplify_eq. left. constructor; simpl; auto.
    + simplify_eq. left. constructor; simpl; auto.
      destruct (decide (t < length (threads w))).
      * apply Forall_insert; [done|]. right; by left.
      * rewrite list_insert_ge by lia. done.
    + unfold DataSource_next, gen_next in Hstep. left.
      destruct (source_gen (ds w)) as [g|]; [destruct (g (gen_pos w))|];
        simplify_eq; constructor; simpl; auto.
  - unfold loop_step in Hstep. left.
    destruct (threads w !! i) as [pc|] eqn:Ei; [|done].
    assert (Hpc : stopped_at_83 pc).
    { eapply Forall_lookup_1 in Ht; eauto. }
    destruct Hpc as [->|[->| ->]]; try done.
    rewrite Hs in Hstep. simplify_eq.
    constructor; simpl; auto.
    + apply Forall_insert; [done|]. right; by right.
    + by constructor.
Qed.

Lemma sinkless_run sched : forall w w',
  sinkless w -> run sched w = Some w' ->
  ~ sink_assigned (trace w') -> sinkless w'.
Proof.
  induction sched as [|a sched IH]; intros w w' Hw Hrun Hnone; simpl in Hrun.
  - by simplify_eq.
  - destruct (step a w) as [w1|] eqn:Hstep; [|done].
    destruct (sinkless_step _ Hw Hstep) as [Hw1|[s Hin]].
    + by eapply IH.
    + destruct Hnone. exists s.
      destruct (run_trace_grows _ _ Hrun) as [evs ->].
      apply in_or_app. by right.
Qed.

Lemma deliveries_quiet (tr : list (Event Tick SinkSt)) :
  Forall (@quiet_event Tick SinkSt) tr -> deliveries tr = [].
Proof.
  unfold deliveries. induction 1 as [|ev tr Hev _ IH]; [done|].
  destruct ev; simpl in *; try done.
Qed.

(** C3. With no sink bound, [unpause] does not fail: it returns normally
    after starting a thread, and it is that thread which raises [ValueError]
    at line 83, before line 84 can clear [paused].  In every execution of a
    pipeline built without a sink, for as long as no sink has been assigned
    to it, the flag [paused] stays true, nothing is delivered, no call of
    [unpause] raises, no loop thread gets past line 83, and the only
    exception a thread dies of is [ValueError]. *)
Theorem unpause_without_sink g rate s0 p sched w :
  run sched (boot (DataSource_init g rate (None : option (Sink Tick SinkSt))) s0 p)
  = Some w ->
  ~ sink_assigned (trace w) ->
  paused (ds w) = true /\
  deliveries (trace w) = [] /\
  (forall e, ~ In (EvReturn CallUnpause (Raises e)) (trace w)) /\
  (forall i pc, threads w !! i = Some pc ->
     pc = LNotStarted \/ pc = L83 \/ pc = LRaised ValueError) /\
  (forall i e, In (EvUncaught i e) (trace w) -> e = ValueError) /\
  (forall rest, ctl w = CReady -> prog w = CallUnpause :: rest ->
     exists w', run unpause_steps w = Some w' /\
       ctl w' = CReady /\
       paused (ds w') = true /\
       thread (ds w') = Some (length (threads w)) /\
       threads w' = threads w ++ [L83] /\
       trace w' = EvReturn CallUnpause (Returned None)
                  :: EvStart (length (threads w))
                  :: EvCall CallUnpause :: trace w) /\
  (forall i, threads w !! i = Some L83 ->
     exists w', step (Thr i) w = Some w' /\
       threads w' !! i = Some (LRaised ValueError) /\
       paused (ds w') = true /\
       trace w' = EvUncaught i ValueError :: trace w).
Proof.
  intros Hrun Hnone.
  pose proof (sinkless_run _ (sinkless_boot g rate s0 p) Hrun Hnone)
    as [Hs Hp Ht Hc Htr].
  split; [done|]. split; [by apply deliveries_quiet|].
  split; [|split; [|split; [|split]]].
  - intros e Hin. apply list_elem_of_In in Hin.
    eapply Forall_forall in Htr; [|exact Hin]. done.
  - intros i pc Hi. eapply Forall_lookup_1 in Ht; eauto.
  - intros i e Hin. apply list_elem_of_In in Hin.
    eapply Forall_forall in Htr; [|exact Hin]. done.
  - intros rest Hctl Hprog.
    eexists. split.
    + simpl. unfold ctl_step at 1. rewrite Hctl, Hprog. simpl.
      unfold ctl_step at 1. simpl. rewrite Hp. simpl. reflexivity.
    + simpl. rewrite Hp. repeat split; try done.
      rewrite insert_app_r_alt by lia.
      by replace (length (threads w) - length (threads w)) with 0 by lia.
  - intros i Hi. eexists. split.
    + simpl. unfold loop_step. rewrite Hi, Hs. reflexivity.
    + simpl. split; [|done].
      apply list_lookup_insert_eq. eapply lookup_lt_Some, Hi.
Qed.

(** *** Only [unpause] makes the pipeline run *)

Lemma paused_until_unpause_boot d s0 p :
  paused (d : DataSource) = true -> paused_until_unpause (boot d s0 p).
Proof. intros Hd. constructor; simpl; [done|]. right. by split. Qed.

Lemma paused_until_unpause_step a w w' :
  paused_until_unpause w -> step a w = Some w' -> paused_until_unpause w'.
Proof.
  intros [Hc Hr] Hstep.
  destruct a as [|i]; simpl in Hstep.
  - unfold ctl_step, pause_returns, ctl_raise, DataSource_next, gen_next
      in Hstep.
    destruct Hr as [[Hu [j Hj]]|[Hp Hall]];
      destruct (ctl w) eqn:Ec; simpl in Hc;
      repeat case_match; simplify_eq;
      constructor; unfold unpause_called, thread_started in *; simpl in *;
      rewrite ?Ec; simpl;
      try congruence;
      first [ tauto | congruence
            | intuition (eauto 4 using Forall_app_2; congruence) ].
  - unfold loop_step in Hstep.
    destruct (threads w !! i) as [pc|] eqn:Ei; [|done].
    assert (Hne : pc <> LNotStarted) by (intros ->; done).
    assert (Hst : unpause_called (trace w) /\ thread_started (trace w)).
    { destruct Hr as [|[_ Hall]]; [done|].
      eapply Forall_lookup_1 in Hall; eauto. congruence. }
    assert (Hkeep : forall w1,
              ctl w1 = ctl w -> (exists evs, trace w1 = evs ++ trace w) ->
              paused_until_unpause w1).
    { intros w1 Hctl [evs Htr]. destruct Hst as [Hu [j Hj]].
      constructor; unfold unpause_called, thread_started; rewrite Htr.
      - intros _. apply in_or_app. by right.
      - left. split; [apply in_or_app; by right|].
        exists j. apply in_or_app. by right. }
    destruct pc; try done; simpl in Hstep;
      repeat case_match; simplify_eq;
      apply Hkeep; simpl; try done;
      first [by exists [] | by eexists [_] | by eexists (_ :: _ :: _)
            | by eexists (_ :: _)].
Qed.

Lemma paused_until_unpause_run sched w w' :
  paused_until_unpause w -> run sched w = Some w' -> paused_until_unpause w'.
Proof.
  revert w. induction sched as [|a sched IH]; intros w Hw Hrun; simpl in Hrun.
  - by simplify_eq.
  - destruct (step a w) as [w1|] eqn:Hstep; [|done].
    eapply IH; [|exact Hrun]. eapply paused_until_unpause_step; eauto.
Qed.

(** C9. A new [DataSource] is paused whatever the arguments of its
    constructor.  In every execution that starts from a new [DataSource], a
    world in which [paused] is false has a call of [unpause] and the start of
    a loop thread in its past; and the one step that clears [paused] is line
    84 of [loop], run by such a thread. *)
Theorem starts_paused :
  (forall (g : option (Generator Tick)) rate (s : option (Sink Tick SinkSt)),
     paused (DataSource_init g rate s) = true) /\
  (forall (g : option (Generator Tick)) rate (s : option (Sink Tick SinkSt))
          s0 p sched w,
     run sched (boot (DataSource_init g rate s) s0 p) = Some w ->
     paused (ds w) = false ->
     In (EvCall CallUnpause) (trace w) /\ exists j, In (EvStart j) (trace w)) /\
  (forall a w w',
     step a w = Some w' ->
     paused (ds w) = true ->
     paused (ds w') = false ->
     exists i, a = Thr i /\ threads w !! i = Some L84).
Proof.
  split; [done|]. split.
  - intros g rate s s0 p sched w Hrun Hp.
    assert (Hinv : paused_until_unpause w).
    { eapply paused_until_unpause_run; [|exact Hrun].
      by apply paused_until_unpause_boot. }
    destruct Hinv as [_ [[Hu Hs]|[Hp' _]]]; [done|congruence].
  - intros a w w' Hstep Hp Hp'.
    destruct a as [|i]; simpl in Hstep.
    + unfold ctl_step, pause_returns, ctl_raise in Hstep.
      repeat case_match; simplify_eq; simpl in *; congruence.
    + exists i. split; [done|].
      unfold loop_step in Hstep.
      destruct (threads w !! i) as [pc|]; [|done].
      destruct pc; try done;
        repeat case_match; simplify_eq; simpl in *; congruence.
Qed.

(** *** Deliveries *)

Lemma deliveries_app (evs tr : list (Event Tick SinkSt)) :
  deliveries (evs ++ tr) = deliveries tr ++ deliveries evs.
Proof.
  unfold deliveries. rewrite <- rev_app_distr. f_equal.
  induction evs as [|ev evs IH]; [done|].
  destruct ev; simpl; by rewrite ?IH.
Qed.

Lemma deliveries_logs (logs : list LogRecord) :
  deliveries (map (@EvLog Tick SinkSt) logs) = [].
Proof. unfold deliveries. by induction logs. Qed.

(** One turn of the loop after a delivery that returned: lines 91, 86, 87 and
    89 bring the thread back to line 90 with the next value of the
    generator. *)
Lemma loop_continues w i t v (s : Sink Tick SinkSt) (g : Generator Tick) v' :
  threads w !! i = Some (L90 t v) ->
  sink (ds w) = Some s ->
  out_exn (send s (sink_st w) v) = None ->
  paused (ds w) = false ->
  thread (ds w) = t ->
  (forall e, line_91 (data_rate (ds w)) <> inr e) ->
  source_gen (ds w) = Some g ->
  g (gen_pos w) = Some v' ->
  exists w',
    run (repeat (Thr i) 5) w = Some w' /\
    threads w' = <[i := L90 t v']> (threads w) /\
    ds w' = ds w /\
    gen_pos w' = S (gen_pos w) /\
    sink_st w' = out_state (send s (sink_st w) v) /\
    ctl w' = ctl w /\
    exists naps,
      trace w' = naps ++ EvDeliver i v None
                 :: map EvLog (out_logs (send s (sink_st w) v)) ++ trace w /\
      deliveries naps = [].
Proof.
  intros Hpc Hs Hok Hp Ht Hr Hg Hv.
  assert (Hlt : i < length (threads w)) by (eapply lookup_lt_Some, Hpc).
  simpl. unfold loop_step at 1. rewrite Hpc, Hs. simpl. rewrite Hok.
  set (w1 := set_pc i (L91 t) _).
  assert (Hnap : exists naps,
    loop_step i w1 = Some (emit naps (set_pc i (L86 t) w1))
    /\ deliveries naps = []).
  { unfold loop_step. simpl. rewrite list_lookup_insert_eq by done. simpl.
    destruct (line_91 (data_rate (ds w))) as [[secs|]|e] eqn:E.
    - by eexists [_].
    - by exists [].
    - by destruct (Hr e). }
  destruct Hnap as [naps [-> Hnaps]]. subst w1.
  unfold loop_step at 1. simpl.
  rewrite !list_insert_insert_eq, list_lookup_insert_eq by done. simpl.
  rewrite Hp.
  unfold loop_step at 1. simpl.
  rewrite !list_insert_insert_eq, list_lookup_insert_eq by done. simpl.
  rewrite Ht, decide_True by done.
  unfold loop_step at 1. simpl.
  rewrite !list_insert_insert_eq, list_lookup_insert_eq by done. simpl.
  rewrite Hg. unfold gen_next. rewrite Hv.
  eexists. split; [reflexivity|]. simpl.
  rewrite !list_insert_insert_eq.
  repeat split; try done.
  by exists naps.
Qed.

Lemma deliveries_deliver i v e (tr : list (Event Tick SinkSt)) :
  deliveries (EvDeliver i v e :: tr) = deliveries tr ++ [(i, v)].
Proof. reflexivity. Qed.

Lemma deliveries_skip_logs (logs : list LogRecord) (tr : list (Event Tick SinkSt)) :
  deliveries (map EvLog logs ++ tr) = deliveries tr.
Proof. by rewrite deliveries_app, deliveries_logs, app_nil_r. Qed.

Lemma CandleApp_send_returns Line (ops : ChartOps Tick SinkSt Line) st v :
  out_exn (send (CandleApp_sink ops) st v) = None.
Proof. simpl. by destruct (CandleApp_send ops (Some v) st). Qed.

Lemma CandleApp_send_logs Line (ops : ChartOps Tick SinkSt Line) st v st' e :
  send_body ops (Some v) st = (st', inr e) ->
  out_logs (send (CandleApp_sink ops) st v) = [send_failed] /\
  out_state (send (CandleApp_sink ops) st v) = st'.
Proof. intros H. simpl. unfold CandleApp_send. by rewrite H. Qed.

(** C7. [DataSource.loop] has no handler around [sink.send]: an exception
    raised by the sink escapes from [loop] and ends the thread, which then
    delivers nothing more.  The isolation is in the sink of the application:
    [CandleApp.send] catches whatever its body raises, logs it and returns,
    so that with this sink, at a rate at which line 91 raises nothing, the
    loop goes on and its next delivery carries the next value of the
    generator. *)
Theorem delivery_failure_isolation :
  (forall w i t v (s : Sink Tick SinkSt) e,
     threads w !! i = Some (L90 t v) ->
     sink (ds w) = Some s ->
     out_exn (send s (sink_st w) v) = Some e ->
     exists w',
       step (Thr i) w = Some w' /\
       threads w' !! i = Some (LRaised e) /\
       step (Thr i) w' = None /\
       trace w' = EvUncaught i e :: EvDeliver i v (Some e)
                  :: map EvLog (out_logs (send s (sink_st w) v)) ++ trace w) /\
  (forall Line (ops : ChartOps Tick SinkSt Line) st v,
     out_exn (send (CandleApp_sink ops) st v) = None /\
     (forall st' e,
        send_body ops (Some v) st = (st', inr e) ->
        out_logs (send (CandleApp_sink ops) st v) = [send_failed] /\
        out_state (send (CandleApp_sink ops) st v) = st')) /\
  (forall Line (ops : ChartOps Tick SinkSt Line) w i t v
          (g : Generator Tick) v',
     threads w !! i = Some (L90 t v) ->
     sink (ds w) = Some (CandleApp_sink ops) ->
     paused (ds w) = false ->
     thread (ds w) = t ->
     (forall e, line_91 (data_rate (ds w)) <> inr e) ->
     source_gen (ds w) = Some g ->
     g (gen_pos w) = Some v' ->
     exists w',
       run (repeat (Thr i) 6) w = Some w' /\
       deliveries (trace w') = deliveries (trace w) ++ [(i, v); (i, v')] /\
       gen_pos w' = S (gen_pos w) /\
       threads w' !! i = Some (L91 t) /\
       (forall st' e,
          send_body ops (Some v) (sink_st w) = (st', inr e) ->
          In (EvLog send_failed) (trace w'))).
Proof.
  split; [|split].
  - intros w i t v s e Hpc Hs He.
    assert (Hlt : i < length (threads w)) by (eapply lookup_lt_Some, Hpc).
    eexists. split.
    + simpl. unfold loop_step. rewrite Hpc, Hs. simpl. rewrite He. reflexivity.
    + simpl. split; [by apply list_lookup_insert_eq|]. split; [|done].
      unfold loop_step. simpl. by rewrite list_lookup_insert_eq.
  - intros Line ops st v. split; [apply CandleApp_send_returns|].
    apply CandleApp_send_logs.
  - intros Line ops w i t v g v' Hpc Hs Hp Ht Hr Hg Hv.
    assert (Hlt : i < length (threads w)) by (eapply lookup_lt_Some, Hpc).
    edestruct loop_continues
      as (w1 & Hrun & Hth & Hds & Hpos & Hst & _ & naps & Htr & Hnaps);
      [exact Hpc|exact Hs|apply CandleApp_send_returns
      |exact Hp|exact Ht|exact Hr|exact Hg|exact Hv|].
    change (repeat (Thr i) 6) with (repeat (Thr i) 5 ++ [Thr i]).
    rewrite run_app, Hrun. simpl. unfold loop_step.
    rewrite Hth, list_lookup_insert_eq, Hds, Hs by done. simpl.
    destruct (CandleApp_send ops (Some v') (sink_st w1)) as [st2 logs2].
    simpl.
    eexists. split; [reflexivity|]. simpl.
    rewrite Hth, list_insert_insert_eq, Hpos.
    split; [|split; [done|split; [by apply list_lookup_insert_eq|]]].
    + change (?e :: map EvLog ?l ++ ?tr) with (e :: (map EvLog l ++ tr)).
      rewrite deliveries_deliver, deliveries_skip_logs, Htr.
      rewrite deliveries_app, Hnaps, app_nil_r.
      rewrite deliveries_deliver, deliveries_skip_logs.
      by rewrite <- app_assoc.
    + intros st' e Hfail.
      destruct (CandleApp_send_logs ops _ _ Hfail) as [Hlogs _].
      right. apply in_or_app. right. rewrite Htr.
      apply in_or_app. right. right. apply in_or_app. left.
      rewrite Hlogs. by left.
Qed.

End Facts.

(** ** The pipeline on concrete executions *)

(** C1. [pause] is called while [paused] is false, joins the thread bound to
    [self.thread] and returns; the other loop instance, which [pause] never
    joined, then delivers the value it had fetched.  No call of [unpause]
    separates the return of [pause] from that delivery. *)
Theorem pause_returns_before_last_delivery :
  exists w1 w2 w3,
    run race_prefix race_start = Some w1 /\
    paused (ds w1) = false /\
    thread (ds w1) = Some 1 /\
    threads w1 = [L90 (Some 1) 2; L86 (Some 1)] /\
    ctl w1 = CReady /\
    prog w1 = [CallPause] /\
    run race_pause w1 = Some w2 /\
    ctl w2 = CReady /\
    paused (ds w2) = true /\
    thread (ds w2) = None /\
    hd_error (trace w2) = Some (EvReturn CallPause (Returned None)) /\
    barrier_respected (trace w2) = true /\
    step (Thr 0) w2 = Some w3 /\
    trace w3 = EvDeliver 0 2 None :: trace w2 /\
    sink_st w3 = [1; 2] /\
    barrier_respected (trace w3) = false.
Proof.
  do 3 eexists.
  split; [vm_compute; reflexivity|].
  do 5 (split; [reflexivity|]).
  split; [vm_compute; reflexivity|].
  do 5 (split; [reflexivity|]).
  split; [vm_compute; reflexivity|].
  repeat split.
Qed.

(** The same violation with a single thread: [unpause(); pause()] returns at
    line 61 because the new thread has not cleared [paused] yet; the thread
    then starts and delivers. *)
Lemma late_thread_outruns_pause :
  exists w,
    run late_sched late_start = Some w /\
    prog w = [] /\
    ctl w = CReady /\
    deliveries (trace w) = [(0, 1)] /\
    barrier_respected (trace w) = false.
Proof. eexists. split; [vm_compute; reflexivity|]. repeat split. Qed.

(** C2. After [unpause(); unpause()] two loop instances are inside an
    iteration at the same time, each holding a value to deliver, and they
    deliver in turn; neither finds itself superseded, since each read
    [self.thread] at line 85 after the second [unpause] had bound it. *)
Theorem two_loops_deliver_in_turn :
  exists w1 w2,
    run overlap_enter overlap_start = Some w1 /\
    threads w1 = [L90 (Some 1) 1; L90 (Some 1) 2] /\
    iterating (threads w1) = 2 /\
    run overlap_deliver w1 = Some w2 /\
    deliveries (trace w2) = [(0, 1); (1, 2); (0, 3); (1, 4)] /\
    sink_st w2 = [1; 2; 3; 4] /\
    iterating (threads w2) = 2 /\
    superseded_logged (trace w2) = false.
Proof.
  do 2 eexists.
  split; [vm_compute; reflexivity|].
  do 2 (split; [reflexivity|]).
  split; [vm_compute; reflexivity|].
  repeat split.
Qed.

(** C3, as the specification states it, fails: with no sink bound the call
    of [unpause] returns normally. *)
Lemma unpause_without_sink_returns :
  exists w,
    sink demo_without_sink = None /\
    run unpause_steps (boot demo_without_sink [] [CallUnpause]) = Some w /\
    ctl w = CReady /\
    thread (ds w) = Some 0 /\
    trace w = [EvReturn CallUnpause (Returned None); EvStart 0;
               EvCall CallUnpause].
Proof. eexists. split; [reflexivity|]. split; [vm_compute; reflexivity|]. repeat split. Qed.

Lemma unpause_without_sink_witness :
  exists w,
    run (solo 1) (boot demo_without_sink [] [CallUnpause]) = Some w /\
    paused (ds w) = true /\
    deliveries (trace w) = [] /\
    threads w = [LRaised ValueError].
Proof.
  eexists. split; [vm_compute; reflexivity|].
  match goal with
  | |- paused (ds ?w) = _ /\ _ =>
      destruct (@unpause_without_sink nat (list nat) cpython (Some counting)
                  1%Q [] [CallUnpause] (solo 1) w) as (H1 & H2 & _)
  end.
  - vm_compute; reflexivity.
  - intros [s Hin]. simpl in Hin.
    repeat (destruct Hin as [Hin|Hin]; [discriminate Hin|]). exact Hin.
  - split; [exact H1|]. split; [exact H2|reflexivity].
Defined.

Lemma pause_idempotent_witness :
  exists w',
    run [Ctl; Ctl] (boot demo [] [CallPause]) = Some w' /\
    ds w' = demo /\
    threads w' = [].
Proof.
  destruct (@pause_idempotent nat (list nat) cpython
              (boot demo [] [CallPause]) [])
    as (w' & Hrun & Hds & Hth & _); [reflexivity|reflexivity|reflexivity|].
  exists w'. split; [exact Hrun|]. split; [exact Hds|exact Hth].
Defined.

(** C5, as the specification states it, fails: at [data_rate=1e-11], a
    positive rate, the duration [1.0 / float(1e-11)] is beyond what
    [time.sleep] converts; it raises [OverflowError], which ends the loop
    thread after its first delivery, and nothing is slept. *)
Lemma tiny_rate_ends_loop :
  exists w',
    (0 < one_per_1e11)%Q /\
    sleep_length one_per_1e11 = inl (Finite 100000000000) /\
    run [Thr 0; Thr 0] (at_line_90 recorder one_per_1e11) = Some w' /\
    threads w' = [LRaised OverflowError] /\
    step (Thr 0) w' = None /\
    trace w' = [EvUncaught 0 OverflowError; EvDeliver 0 1 None].
Proof.
  eexists. split; [reflexivity|]. split; [vm_compute; reflexivity|].
  split; [vm_compute; reflexivity|]. repeat split.
Qed.

Lemma rate_limiting_witness :
  exists w',
    run [Thr 0; Thr 0] (at_line_90 recorder 10) = Some w' /\
    threads w' !! 0 = Some (L86 (Some 0)) /\
    trace w' = [EvSleep 0 (Finite tenth); EvDeliver 0 1 None].
Proof.
  destruct (@rate_limiting nat (list nat) cpython (at_line_90 recorder 10) 0
              (Some 0) 1 recorder)
    as (_ & Hband); [reflexivity|reflexivity|reflexivity|].
  destruct Hband as (secs & Hsecs & _ & _ & Hsleeps & _);
    [by apply Qle_bool_iff; vm_compute|by apply Qle_bool_iff; vm_compute|].
  assert (Hs : secs = tenth)
    by (vm_compute in Hsecs; injection Hsecs as <-; reflexivity).
  subst secs.
  destruct Hsleeps as (w' & Hrun & Hpc & Htr); [vm_compute; reflexivity|].
  exists w'. split; [exact Hrun|]. split; [exact Hpc|exact Htr].
Defined.

(** C7, as the specification states it, fails: with a sink whose [send]
    raises on the second value, the loop thread dies at that delivery and no
    third delivery ever takes place. *)
Lemma raising_sink_ends_loop :
  exists w,
    run (solo 12)
        (boot (DataSource_init (Some counting) 10 (Some (failing_on 2))) []
              [CallUnpause])
    = Some w /\
    threads w = [LRaised (OtherError 0)] /\
    step (Thr 0) w = None /\
    deliveries (trace w) = [(0, 1); (0, 2)] /\
    sink_st w = [1] /\
    paused (ds w) = false.
Proof. eexists. split; [vm_compute; reflexivity|]. repeat split. Qed.

Lemma delivery_failure_isolation_witness :
  exists w',
    run (repeat (Thr 0) 6) (at_line_90 (CandleApp_sink (brittle_chart 1)) 10)
    = Some w' /\
    deliveries (trace w') = [(0, 1); (0, 2)] /\
    In (EvLog send_failed) (trace w').
Proof.
  destruct (@delivery_failure_isolation nat (list nat) cpython)
    as (_ & _ & Hloop).
  destruct (Hloop nat (brittle_chart 1)
              (at_line_90 (CandleApp_sink (brittle_chart 1)) 10)
              0 (Some 0) 1 counting 2)
    as (w' & Hrun & Hdel & _ & _ & Hlog);
    [reflexivity|reflexivity|reflexivity|reflexivity
    |intros e; vm_compute; discriminate
    |reflexivity|reflexivity|].
  exists w'. split; [exact Hrun|]. split; [exact Hdel|].
  apply (Hlog [] (OtherError 1)). reflexivity.
Defined.

(** C8, as the specification states it, fails: when the generator is
    exhausted the thread dies of [StopIteration], [paused] stays false and
    the controller, back from [unpause] long before, is not told. *)
Lemma exhaustion_leaves_running :
  exists w,
    run (solo 11)
        (boot (DataSource_init (Some (upto 1)) 10 (Some recorder)) []
              [CallUnpause])
    = Some w /\
    threads w = [LRaised StopIteration] /\
    paused (ds w) = false /\
    thread (ds w) = Some 0 /\
    ctl w = CReady /\
    hd_error (trace w) = Some (EvUncaught 0 StopIteration) /\
    deliveries (trace w) = [(0, 1)].
Proof. eexists. split; [vm_compute; reflexivity|]. repeat split. Qed.

Lemma generator_exhaustion_witness :
  exists w',
    step (Thr 0) at_line_89_exhausted = Some w' /\
    threads w' = [LRaised StopIteration] /\
    paused (ds w') = false /\
    trace w' = [EvUncaught 0 StopIteration].
Proof.
  destruct (@generator_exhaustion nat (list nat) cpython
              at_line_89_exhausted 0
              (Some 0) (upto 1))
    as (w' & Hstep & Hth & _ & Hds & _ & _ & _ & _ & Htr);
    [reflexivity|reflexivity|reflexivity|].
  exists w'. split; [exact Hstep|]. split; [exact Hth|].
  split; [by rewrite Hds|exact Htr].
Defined.

Lemma starts_paused_witness :
  exists w,
    run (solo 2) (boot demo [] [CallUnpause]) = Some w /\
    paused (ds w) = false /\
    In (EvCall CallUnpause) (trace w) /\
    exists j, In (EvStart j) (trace w).
Proof.
  eexists. split; [vm_compute; reflexivity|]. split; [reflexivity|].
  destruct (@starts_paused nat (list nat) cpython) as (_ & Hrun & _).
  eapply (Hrun (Some counting) 10%Q (Some recorder) [] [CallUnpause] (solo 2)).
  - vm_compute; reflexivity.
  - reflexivity.
Defined.

Lemma next_frame_witness :
  exists w',
    run [Ctl; Ctl] (boot demo [] [CallNext]) = Some w' /\
    ds w' = demo /\
    gen_pos w' = 1 /\
    trace w' = [EvReturn CallNext (Returned (Some 1)); EvCall CallNext].
Proof.
  destruct (@next_frame nat (list nat) cpython (boot demo [] [CallNext]) [])
    as (w' & Hrun & Hds & _ & _ & _ & Htr & Hpos & _);
    [reflexivity|reflexivity|].
  exists w'. split; [exact Hrun|]. split; [exact Hds|].
  split; [exact Hpos|exact Htr].
Defined.

(** ** One loop at a time: what [pause] guarantees *)

Section Barrier.

Variable Tick : Type.
Variable SinkSt : Type.
Context {platform : Platform}.

#[local] Abbreviation World := (World Tick SinkSt).

Implicit Types (w : World) (i j : Tid) (pc : LoopPc Tick).

Lemma prog_shrinks a w w' :
  step a w = Some w' -> length (prog w') <= length (prog w).
Proof.
  intros Hstep. destruct a as [|i]; simpl in Hstep.
  - unfold ctl_step, pause_returns, ctl_raise in Hstep.
    repeat case_match; simplify_eq; simpl; rewrite ?H; simpl; lia.
  - unfold loop_step in Hstep.
    repeat case_match; simplify_eq; simpl; lia.
Qed.

(** A step of a loop thread that is past line 84 leaves the [DataSource] and
    the controller alone, and the thread stays past line 84 until it ends. *)
Lemma step_past_84 w j pc w' :
  threads w !! j = Some pc ->
  winding_down pc ->
  step (Thr j) w = Some w' ->
  ds w' = ds w /\ ctl w' = ctl w /\ prog w' = prog w /\
  exists pc', threads w' = <[j := pc']> (threads w) /\ winding_down pc'.
Proof.
  intros Hpc Hwd Hstep. simpl in Hstep. unfold loop_step in Hstep.
  rewrite Hpc in Hstep. unfold winding_down in *.
  destruct pc; simpl in Hwd; try (destruct Hwd; discriminate);
    repeat case_match; simplify_eq; simpl;
    (split; [done|]); (split; [done|]); (split; [done|]);
    eexists; (split; [reflexivity|]); simpl; auto.
Qed.

Lemma all_finished_intro j (ts : list (LoopPc Tick)) pc :
  others_finished j ts ->
  ts !! j = Some pc ->
  finished pc = true ->
  all_finished ts.
Proof.
  intros Hoth Hj Hfin. apply Forall_lookup_2. intros i x Hi.
  destruct (decide (i = j)) as [Heq|Hne].
  - subst i. unfold Tid in *. congruence.
  - eapply Hoth; eauto.
Qed.

Lemma others_finished_insert j (ts : list (LoopPc Tick)) pc :
  others_finished j ts -> others_finished j (<[j := pc]> ts).
Proof.
  intros Hoth i x Hne Hi. rewrite list_lookup_insert_ne in Hi by done.
  eapply Hoth; eauto.
Qed.

Lemma all_finished_stuck w i : all_finished (threads w) -> step (Thr i) w = None.
Proof.
  intros Hall. destruct (threads w !! i) as [pc|] eqn:Hi.
  - eapply finished_stuck; [exact Hi|].
    eapply Forall_lookup_1 in Hall; eauto.
  - simpl. unfold loop_step. by rewrite Hi.
Qed.

Lemma joining_step j rest a w w' :
  joining j rest w -> step a w = Some w' -> joining j rest w'.
Proof.
  intros [Hlen|(Hoth & (pc & Hpc & Hwd) & Hctl)] Hstep.
  { left. apply prog_shrinks in Hstep. lia. }
  destruct a as [|i].
  - simpl in Hstep. unfold ctl_step in Hstep.
    destruct (ctl w) as [|k|k|k|k t|k| | | | |] eqn:Ec; try done;
      try (destruct k; try done).
    + destruct Hctl as [(Hp & Hpa & Hth)|(Hp & Hpa & Hth & Hall)].
      * rewrite Hp in Hstep. simplify_eq. right. simpl.
        split; [done|]. split; [eauto|]. done.
      * left. destruct (prog w) as [|c rest']; [done|].
        destruct c; simplify_eq; simpl; lia.
    + destruct Hctl as (Hp & Hpa & Hth). rewrite Hpa in Hstep. simplify_eq.
      right. simpl. split; [done|]. split; [eauto|]. done.
    + destruct Hctl as (Hp & Hpa & Hth). simplify_eq.
      right. simpl. split; [done|]. split; [eauto|]. done.
    + destruct Hctl as (Hp & Hpa & Hth). simplify_eq.
      right. simpl. split; [done|]. split; [eauto|]. done.
    + destruct Hctl as (Hp & Hpa & Hth & ->). rewrite Hpc in Hstep.
      destruct (finished pc) eqn:Hfin.
      * assert (Hall : all_finished (threads w))
          by (eapply all_finished_intro; eauto).
        destruct pc; simpl in Hfin; try done; simplify_eq;
          right; simpl; (split; [done|]); (split; [eauto|]); done.
      * destruct pc; simpl in Hfin; try done.
        destruct Hwd as [Hwd|Hwd]; simpl in Hwd; done.
    + destruct Hctl as (Hp & Hpa & Hall). simplify_eq.
      right. simpl. split; [done|]. split; [eauto|]. right. done.
  - destruct (decide (i = j)) as [->|Hne].
    + edestruct step_past_84 as (Hds & Hc & Hp & pc' & Hth & Hwd');
        [exact Hpc|exact Hwd|exact Hstep|].
      assert (Hlt : j < length (threads w)) by (eapply lookup_lt_Some, Hpc).
      assert (Halive : all_finished (threads w) -> False).
      { intros Hall. rewrite all_finished_stuck in Hstep; done. }
      right. rewrite Hth, Hds, Hc, Hp.
      split; [by apply others_finished_insert|].
      split; [exists pc'; split; [by apply list_lookup_insert_eq|done]|].
      destruct (ctl w) as [|k|k|k|k t|k| | | | |]; try done;
        try (destruct k; try done).
      * destruct Hctl as [?|(_ & _ & _ & Hall)]; [by left|by destruct Halive].
      * destruct Hctl as (_ & _ & Hall). by destruct Halive.
    + exfalso. simpl in Hstep. unfold loop_step in Hstep.
      destruct (threads w !! i) as [pci|] eqn:Hi; [|done].
      pose proof (Hoth i pci Hne Hi) as Hfin.
      destruct pci; simpl in Hfin; done.
Qed.

Lemma joining_run j rest sched w w' :
  joining j rest w -> run sched w = Some w' -> joining j rest w'.
Proof.
  revert w. induction sched as [|a sched IH]; intros w Hw Hrun; simpl in Hrun.
  - by simplify_eq.
  - destruct (step a w) as [w1|] eqn:Hstep; [|done].
    eapply IH; [|exact Hrun]. eapply joining_step; eauto.
Qed.

Lemma joining_done j rest w :
  joining j rest w ->
  ctl w = CReady ->
  prog w = rest ->
  paused (ds w) = true /\ thread (ds w) = None /\ all_finished (threads w).
Proof.
  intros [Hlen|(_ & _ & Hctl)] Hc Hp; [rewrite Hp in Hlen; lia|].
  rewrite Hc in Hctl.
  destruct Hctl as [(Hp' & _)|(_ & ? & ? & ?)]; [|done].
  rewrite Hp in Hp'. exfalso.
  apply (f_equal length) in Hp'. simpl in Hp'. lia.
Qed.

(** X1. [pause()] called while exactly one loop is alive, that loop being
    past line 84 and bound to [self.thread]: whatever the interleaving, when
    the call has returned [paused] is true, [self.thread] is [None], every
    thread has ended and no thread can move. *)
Theorem pause_joins_the_running_loop w j pc rest sched w' :
  ctl w = CReady ->
  prog w = CallPause :: rest ->
  paused (ds w) = false ->
  thread (ds w) = Some j ->
  threads w !! j = Some pc ->
  past_84 pc = true ->
  others_finished j (threads w) ->
  run sched w = Some w' ->
  ctl w' = CReady ->
  prog w' = rest ->
  paused (ds w') = true /\
  thread (ds w') = None /\
  all_finished (threads w') /\
  forall i, step (Thr i) w' = None.
Proof.
  intros Hc Hp Hpa Hth Hpc Hpast Hoth Hrun Hc' Hp'.
  assert (Hj : joining j rest w).
  { right. split; [done|]. split; [exists pc; split; [done|by left]|].
    rewrite Hc. by left. }
  pose proof (joining_run _ Hj Hrun) as Hj'.
  destruct (joining_done Hj' Hc' Hp') as (? & ? & Hall).
  repeat split; try done. intros i. by apply all_finished_stuck.
Qed.

(** *** How long a loop outlives [paused = True] *)

Lemma deliveries_length_deliver i v e (logs : list LogRecord)
    (tr : list (Event Tick SinkSt)) :
  length (deliveries (EvDeliver i v e :: map EvLog logs ++ tr))
  = S (length (deliveries tr)).
Proof.
  rewrite deliveries_deliver, deliveries_skip_logs, length_app. simpl. lia.
Qed.

Lemma wind_step w i pc :
  threads w !! i = Some pc ->
  past_84 pc = true ->
  paused (ds w) = true ->
  exists w' pc',
    step (Thr i) w = Some w' /\
    ds w' = ds w /\
    threads w' !! i = Some pc' /\
    winding_down pc' /\
    steps_left pc' < steps_left pc /\
    length (deliveries (trace w')) + deliveries_left pc'
    <= length (deliveries (trace w)) + deliveries_left pc.
Proof.
  intros Hpc Hpast Hp.
  assert (Hlt : i < length (threads w)) by (eapply lookup_lt_Some, Hpc).
  unfold winding_down. simpl. unfold loop_step. rewrite Hpc.
  destruct pc; simpl in Hpast; try done;
    unfold gen_next;
    repeat case_match; simplify_eq;
    do 2 eexists; (split; [reflexivity|]);
    cbn -[lookup insert deliveries];
    (split; [reflexivity|]);
    (split; [by apply list_lookup_insert_eq|]);
    (split; [cbn; auto|]);
    (split; [cbn; lia|]);
    repeat first
      [ rewrite deliveries_length_deliver
      | progress change (deliveries (?ev :: ?tr)) with (deliveries tr) ];
    cbn -[deliveries]; lia.
Qed.

Lemma wind_down r : forall w i pc,
  steps_left pc <= r ->
  threads w !! i = Some pc ->
  winding_down pc ->
  paused (ds w) = true ->
  exists n w',
    n <= steps_left pc /\
    run (repeat (Thr i) n) w = Some w' /\
    ds w' = ds w /\
    (exists pc', threads w' !! i = Some pc' /\ finished pc' = true) /\
    length (deliveries (trace w'))
    <= length (deliveries (trace w)) + deliveries_left pc.
Proof.
  induction r as [|r IH]; intros w i pc Hr Hpc Hwd Hp.
  - exists 0, w. destruct Hwd as [Hpast|Hfin].
    + destruct pc; simpl in *; done || lia.
    + simpl. repeat split; eauto; lia.
  - destruct (finished pc) eqn:Hfin.
    { exists 0, w. simpl. repeat split; eauto; lia. }
    destruct Hwd as [Hpast|?]; [|congruence].
    destruct (wind_step w i Hpc Hpast Hp)
      as (w1 & pc1 & Hstep & Hds & Hpc1 & Hwd1 & Hless & Hdel).
    destruct (IH w1 i pc1) as (n & w' & Hn & Hrun & Hds' & Hend & Hdel');
      [lia|done|done|by rewrite Hds|].
    exists (S n), w'. simpl in Hstep. simpl. rewrite Hstep.
    repeat split; [lia|done|by rewrite Hds', Hds|done|lia].
Qed.

(** X2. Once [paused] is set, a loop thread that is past line 84 and runs
    alone (no step of the controller or of another thread in between, so
    that nothing clears the flag) ends within five steps and delivers at
    most one more value; it delivers none if it was at line 85, 86 or 91. *)
Theorem loop_ends_within_one_iteration w i pc :
  threads w !! i = Some pc ->
  past_84 pc = true ->
  paused (ds w) = true ->
  exists n w',
    n <= 5 /\
    run (repeat (Thr i) n) w = Some w' /\
    ds w' = ds w /\
    (exists pc', threads w' !! i = Some pc' /\ finished pc' = true) /\
    length (deliveries (trace w')) <= length (deliveries (trace w)) + 1 /\
    (deliveries_left pc = 0 ->
     length (deliveries (trace w')) <= length (deliveries (trace w))).
Proof.
  intros Hpc Hpast Hp.
  destruct (@wind_down (steps_left pc) w i pc)
    as (n & w' & Hn & Hrun & Hds & Hend & Hdel);
    [done|done|by left|done|].
  exists n, w'.
  assert (steps_left pc <= 5) by (destruct pc; simpl; lia).
  assert (deliveries_left pc <= 1) by (destruct pc; simpl; lia).
  repeat split; try done; lia.
Qed.

(** *** Between [pause] and the next [unpause] *)

Lemma idle_step a w w' :
  idle w -> step a w = Some w' ->
  idle w' /\ deliveries (trace w') = deliveries (trace w).
Proof.
  intros (Hall & Hctl & Hprog) Hstep. destruct a as [|i].
  - simpl in Hstep.
    unfold ctl_step, pause_returns, ctl_raise, DataSource_next, gen_next
      in Hstep.
    unfold idle.
    destruct (ctl w) eqn:Ec; simpl in Hctl; try done;
      repeat case_match; simplify_eq; simpl in *; rewrite ?Ec;
      repeat split; try done; try tauto.
  - rewrite all_finished_stuck in Hstep; done.
Qed.

(** X3. While every loop thread has ended and the controller neither is in
    [unpause] nor calls it, nothing is delivered, whatever the schedule and
    whatever else ([pause], [next]) the controller calls. *)
Theorem idle_pipeline_is_silent sched w w' :
  all_finished (threads w) ->
  in_unpause (ctl w) = false ->
  ~ In CallUnpause (prog w) ->
  run sched w = Some w' ->
  deliveries (trace w') = deliveries (trace w) /\
  all_finished (threads w') /\
  threads w' = threads w.
Proof.
  intros Hall Hctl Hprog.
  assert (Hidle : idle w) by done. clear Hall Hctl Hprog.
  revert w Hidle.
  induction sched as [|a sched IH]; intros w Hidle Hrun; simpl in Hrun.
  - simplify_eq. by destruct Hidle.
  - destruct (step a w) as [w1|] eqn:Hstep; [|done].
    edestruct idle_step as (Hidle1 & Hdel); [exact Hidle|exact Hstep|].
    destruct (IH w1 Hidle1 Hrun) as (Hdel' & Hall' & Hth).
    split; [congruence|]. split; [done|].
    rewrite Hth. destruct a as [|i].
    + simpl in Hstep.
      unfold ctl_step, pause_returns, ctl_raise, DataSource_next, gen_next
        in Hstep.
      destruct Hidle as (_ & Hctl & _).
      destruct (ctl w) eqn:Ec; simpl in Hctl; try done;
        repeat case_match; simplify_eq; simpl in *; done.
    + destruct Hidle as (Hall & _). rewrite all_finished_stuck in Hstep; done.
Qed.

(** X4. [pause()] on a pipeline whose flag says running while
    [self.thread] is [None]: the call sets [paused], then fails at line 64
    with [AttributeError] ([None] has no [join]); the flag stays set and the
    threads are left as they were. *)
Theorem pause_without_thread_raises w rest :
  ctl w = CReady ->
  prog w = CallPause :: rest ->
  paused (ds w) = false ->
  thread (ds w) = None ->
  exists w',
    run [Ctl; Ctl; Ctl; Ctl; Ctl] w = Some w' /\
    ctl w' = CRaised AttributeError /\
    step Ctl w' = None /\
    paused (ds w') = true /\
    threads w' = threads w /\
    trace w' = EvReturn CallPause (Raises AttributeError)
               :: EvCall CallPause :: trace w.
Proof.
  intros Hc Hp Hpa Hth. simpl.
  unfold ctl_step at 1. rewrite Hc, Hp. simpl.
  unfold ctl_step at 1. simpl. rewrite Hpa.
  unfold ctl_step at 1. simpl.
  unfold ctl_step at 1. simpl. rewrite Hth.
  unfold ctl_step at 1. simpl.
  eexists. split; [reflexivity|]. by repeat split.
Qed.

(** *** [next] while no loop is alive *)

Lemma next_results_app (evs tr : list (Event Tick SinkSt)) :
  next_results (evs ++ tr) = next_results tr ++ next_results evs.
Proof.
  unfold next_results. rewrite <- rev_app_distr. f_equal.
  induction evs as [|ev evs IH]; [done|].
  destruct ev as [c|c r| | | | |]; simpl; rewrite ?IH; try done.
  destruct c; simpl; by rewrite ?IH.
Qed.

(** One call of [next] by the controller, from the call to the return or the
    exception. *)
Lemma next_call w rest :
  ctl w = CReady ->
  prog w = CallNext :: rest ->
  exists w1 w2,
    step Ctl w = Some w1 /\
    ctl w1 = C78 /\ threads w1 = threads w /\
    step Ctl w1 = Some w2 /\
    ds w2 = ds w /\ threads w2 = threads w /\ prog w2 = rest /\
    gen_pos w2 = (DataSource_next (ds w) (gen_pos w)).2 /\
    trace w2 = EvReturn CallNext (DataSource_next (ds w) (gen_pos w)).1
               :: EvCall CallNext :: trace w /\
    ctl w2 = match (DataSource_next (ds w) (gen_pos w)).1 with
             | Returned _ => CReady
             | Raises e => CRaised e
             end.
Proof.
  intros Hc Hp.
  destruct (DataSource_next (ds w) (gen_pos w)) as [[v|e] pos'] eqn:E;
    do 2 eexists;
    (split; [simpl; unfold ctl_step; rewrite Hc, Hp; reflexivity|]);
    (split; [reflexivity|]); (split; [reflexivity|]);
    (split; [simpl; unfold ctl_step; simpl; rewrite E; reflexivity|]);
    by repeat split.
Qed.

Lemma next_calls n : forall w rest,
  ctl w = CReady ->
  prog w = repeat CallNext n ++ rest ->
  (forall g k, source_gen (ds w) = Some g -> k < n ->
     is_Some (g (gen_pos w + k))) ->
  exists w',
    run (repeat Ctl (2 * n)) w = Some w' /\
    ds w' = ds w /\ threads w' = threads w /\
    ctl w' = CReady /\ prog w' = rest /\
    gen_pos w' = match source_gen (ds w) with
                 | Some _ => gen_pos w + n
                 | None => gen_pos w
                 end /\
    next_results (trace w')
    = next_results (trace w)
      ++ successive_values (source_gen (ds w)) (gen_pos w) n.
Proof.
  induction n as [|n IH]; intros w rest Hc Hp Hyield.
  - exists w. simpl in *. unfold successive_values.
    destruct (source_gen (ds w)); simpl; rewrite ?app_nil_r, ?Nat.add_0_r;
      by repeat split.
  - assert (Hhd : prog w = CallNext :: (repeat CallNext n ++ rest))
      by exact Hp.
    destruct (next_call _ Hc Hhd)
      as (w1 & w2 & Hs1 & _ & _ & Hs2 & Hds & Hth & Hpr & Hpos & Htr & Hctl).
    assert (Hres : (DataSource_next (ds w) (gen_pos w)).1
                   = match source_gen (ds w) with
                     | Some g => Returned (g (gen_pos w))
                     | None => Returned None
                     end /\
                   (DataSource_next (ds w) (gen_pos w)).2
                   = match source_gen (ds w) with
                     | Some _ => S (gen_pos w)
                     | None => gen_pos w
                     end).
    { unfold DataSource_next, gen_next.
      destruct (source_gen (ds w)) as [g|] eqn:Hg; [|done].
      destruct (Hyield g 0 eq_refl ltac:(lia)) as [v Hv].
      rewrite Nat.add_0_r in Hv. by rewrite Hv. }
    destruct Hres as [Hr1 Hr2].
    assert (Hc2 : ctl w2 = CReady)
      by (rewrite Hctl, Hr1; by destruct (source_gen (ds w))).
    destruct (IH w2 rest Hc2 Hpr) as (w' & Hrun & Hds' & Hth' & Hc' & Hp' & Hpos' & Htr').
    { intros g k Hg Hk. rewrite Hds in Hg. rewrite Hpos, Hr2, Hg.
      replace (S (gen_pos w) + k) with (gen_pos w + S k) by lia.
      apply (Hyield g); [done|lia]. }
    exists w'.
    replace (2 * S n) with (S (S (2 * n))) by lia.
    cbn [repeat run]. rewrite Hs1, Hs2.
    split; [exact Hrun|]. split; [congruence|]. split; [congruence|].
    split; [done|]. split; [done|].
    rewrite Hds in Hpos', Htr'. rewrite Hpos', Htr', Hpos, Hr2, Htr.
    change (?a :: ?b :: ?tr) with ([a; b] ++ tr).
    rewrite next_results_app, Hr1. unfold successive_values.
    destruct (source_gen (ds w)) as [g|]; simpl.
    + split; [lia|]. rewrite <- app_assoc. do 2 f_equal. simpl.
      rewrite Nat.add_0_r. f_equal.
      rewrite <- seq_shift, map_map. apply map_ext. intros k.
      do 2 f_equal. lia.
    + split; [done|]. by rewrite <- app_assoc.
Qed.

(** While the calls last, no step is a thread's. *)
Lemma only_the_controller_moves n : forall w rest sched w',
  all_finished (threads w) ->
  ctl w = CReady ->
  prog w = repeat CallNext n ++ rest ->
  length sched <= 2 * n ->
  run sched w = Some w' ->
  sched = repeat Ctl (length sched).
Proof.
  induction n as [|n IH]; intros w rest sched w' Hall Hc Hp Hlen Hrun.
  - destruct sched; [done|simpl in Hlen; lia].
  - assert (Hp' : prog w = CallNext :: (repeat CallNext n ++ rest))
      by exact Hp.
    destruct (next_call _ Hc Hp')
      as (w1 & w2 & Hs1 & Hc1 & Hth1 & Hs2 & _ & Hth2 & Hpr & _ & _ & Hctl).
    destruct sched as [|a sched]; [done|].
    cbn [run] in Hrun. destruct a as [|i];
      [|by rewrite all_finished_stuck in Hrun].
    rewrite Hs1 in Hrun. cbn [length repeat]. f_equal.
    destruct sched as [|b sched]; [done|].
    cbn [run] in Hrun. destruct b as [|i];
      [|rewrite all_finished_stuck in Hrun; [done|by rewrite Hth1]].
    rewrite Hs2 in Hrun. cbn [length repeat]. f_equal.
    destruct ((DataSource_next (ds w) (gen_pos w)).1) as [v|e].
    + eapply IH; [by rewrite Hth2|exact Hctl|exact Hpr| |exact Hrun].
      simpl in Hlen. lia.
    + destruct sched as [|d sched]; [done|]. cbn [run] in Hrun.
      destruct d as [|i].
      * simpl in Hrun. unfold ctl_step in Hrun. by rewrite Hctl in Hrun.
      * rewrite all_finished_stuck in Hrun; [done|by rewrite Hth2].
Qed.

(** C6. [next] while no loop is alive.  The controller makes [n] successive
    calls from a world in which every loop thread has ended, whatever the
    values of [paused], [thread], [sink] and [data_rate]: the calls return,
    no step of any schedule that fits before the last return is a thread's,
    and the results are the next [n] values of the generator in generator
    order ([None] each time when no generator is bound); the [DataSource]
    and the threads are as they were and the cursor has moved by [n] (not at
    all without a generator). *)
Theorem next_returns_generator_values w n rest :
  all_finished (threads w) ->
  ctl w = CReady ->
  prog w = repeat CallNext n ++ rest ->
  (forall g k, source_gen (ds w) = Some g -> k < n ->
     is_Some (g (gen_pos w + k))) ->
  (exists w', run (repeat Ctl (2 * n)) w = Some w') /\
  (forall sched w',
     length sched <= 2 * n ->
     run sched w = Some w' ->
     sched = repeat Ctl (length sched)) /\
  (forall sched w',
     length sched = 2 * n ->
     run sched w = Some w' ->
     next_results (trace w')
     = next_results (trace w)
       ++ successive_values (source_gen (ds w)) (gen_pos w) n /\
     gen_pos w' = match source_gen (ds w) with
                  | Some _ => gen_pos w + n
                  | None => gen_pos w
                  end /\
     ds w' = ds w /\
     threads w' = threads w /\
     ctl w' = CReady /\
     prog w' = rest).
Proof.
  intros Hall Hc Hp Hyield.
  destruct (@next_calls n w rest Hc Hp Hyield)
    as (w1 & Hrun1 & Hds & Hth & Hc1 & Hp1 & Hpos & Htr).
  split; [by exists w1|]. split.
  - intros sched w' Hlen Hrun.
    eapply only_the_controller_moves; eauto.
  - intros sched w' Hlen Hrun.
    assert (Hs : sched = repeat Ctl (length sched))
      by (eapply only_the_controller_moves; eauto; lia).
    rewrite Hlen in Hs. rewrite Hs, Hrun1 in Hrun. by simplify_eq.
Qed.

(** *** A loop running alone *)

(** One whole iteration, from the [while] test back to it. *)
Lemma loop_iteration w i t (s : Sink Tick SinkSt) (g : Generator Tick) v :
  threads w !! i = Some (L86 t) ->
  sink (ds w) = Some s ->
  paused (ds w) = false ->
  thread (ds w) = t ->
  (forall e, line_91 (data_rate (ds w)) <> inr e) ->
  source_gen (ds w) = Some g ->
  g (gen_pos w) = Some v ->
  out_exn (send s (sink_st w) v) = None ->
  exists w',
    run (repeat (Thr i) 5) w = Some w' /\
    threads w' = threads w /\
    ds w' = ds w /\
    gen_pos w' = S (gen_pos w) /\
    sink_st w' = out_state (send s (sink_st w) v) /\
    ctl w' = ctl w /\
    prog w' = prog w /\
    deliveries (trace w') = deliveries (trace w) ++ [(i, v)].
Proof.
  intros Hpc Hs Hp Ht Hr Hg Hv Hok.
  assert (Hlt : i < length (threads w)) by (eapply lookup_lt_Some, Hpc).
  simpl. unfold loop_step at 1. rewrite Hpc, Hp.
  unfold loop_step at 1. simpl.
  rewrite list_lookup_insert_eq by done. simpl.
  rewrite Ht, decide_True by done.
  unfold loop_step at 1. simpl.
  rewrite !list_insert_insert_eq, list_lookup_insert_eq by done. simpl.
  rewrite Hg. unfold gen_next. rewrite Hv.
  unfold loop_step at 1. simpl.
  rewrite !list_insert_insert_eq, list_lookup_insert_eq by done. simpl.
  rewrite Hs. simpl. rewrite Hok.
  unfold loop_step. simpl.
  rewrite !list_insert_insert_eq, list_lookup_insert_eq by done. simpl.
  pose proof (list_insert_id (threads w) i (L86 t) Hpc) as Hback.
  destruct (line_91 (data_rate (ds w))) as [[secs|]|e] eqn:E.
  - eexists. split; [reflexivity|]. simpl.
    rewrite !list_insert_insert_eq, Hback.
    repeat split; try done.
    change (deliveries (EvSleep ?a ?b :: ?tr)) with (deliveries tr).
    by rewrite deliveries_deliver, deliveries_skip_logs.
  - eexists. split; [reflexivity|]. simpl.
    rewrite !list_insert_insert_eq, Hback.
    repeat split; try done.
    by rewrite deliveries_deliver, deliveries_skip_logs.
  - by destruct (Hr e).
Qed.

(** [n] iterations of a loop running alone. *)
Lemma loop_iterations (s : Sink Tick SinkSt)
    (g : Generator Tick) (vs : list Tick) : forall w i t,
  threads w !! i = Some (L86 t) ->
  sink (ds w) = Some s ->
  (forall st x, out_exn (send s st x) = None) ->
  paused (ds w) = false ->
  thread (ds w) = t ->
  (forall e, line_91 (data_rate (ds w)) <> inr e) ->
  source_gen (ds w) = Some g ->
  (forall k v, vs !! k = Some v -> g (gen_pos w + k) = Some v) ->
  exists w',
    run (repeat (Thr i) (5 * length vs)) w = Some w' /\
    threads w' = threads w /\
    ds w' = ds w /\
    gen_pos w' = gen_pos w + length vs /\
    sink_st w' = foldl (fun st x => out_state (send s st x)) (sink_st w) vs /\
    deliveries (trace w') = deliveries (trace w) ++ map (pair i) vs.
Proof.
  induction vs as [|v vs IH]; intros w i t Hpc Hs Hok Hp Ht Hr Hg Hvs.
  - exists w. simpl. rewrite app_nil_r, Nat.add_0_r. by repeat split.
  - pose proof (Hvs 0 v eq_refl) as Hv. rewrite Nat.add_0_r in Hv.
    edestruct loop_iteration
      as (w1 & Hrun1 & Hth1 & Hds1 & Hpos1 & Hst1 & _ & _ & Hdel1);
      [exact Hpc|exact Hs|exact Hp|exact Ht|exact Hr|exact Hg
      |exact Hv|apply Hok|].
    destruct (IH w1 i t) as (w' & Hrun & Hth & Hds & Hpos & Hst & Hdel);
      try (rewrite ?Hth1, ?Hds1; done).
    { intros k x Hk. rewrite Hpos1.
      replace (S (gen_pos w) + k) with (gen_pos w + S k) by lia.
      by apply Hvs. }
    exists w'.
    replace (5 * length (v :: vs)) with (5 + 5 * length vs)
      by (simpl; lia).
    rewrite repeat_app, run_app, Hrun1, Hrun.
    split; [done|]. split; [congruence|]. split; [congruence|].
    split; [rewrite Hpos, Hpos1; simpl; lia|].
    split; [by rewrite Hst, Hst1|].
    rewrite Hdel, Hdel1, <- app_assoc. reflexivity.
Qed.

(** X5. A loop running alone, with a sink that does not raise and a rate at
    which line 91 raises nothing, delivers the values of the generator in
    generator order, each exactly once: after [n] iterations the [n] next
    values have been delivered and the sink has been sent exactly these. *)
Theorem solo_loop_delivers_in_order (s : Sink Tick SinkSt)
    (g : Generator Tick) (vs : list Tick) w i t :
  threads w !! i = Some (L86 t) ->
  sink (ds w) = Some s ->
  (forall st x, out_exn (send s st x) = None) ->
  paused (ds w) = false ->
  thread (ds w) = t ->
  (forall e, line_91 (data_rate (ds w)) <> inr e) ->
  source_gen (ds w) = Some g ->
  (forall k v, vs !! k = Some v -> g (gen_pos w + k) = Some v) ->
  exists w',
    run (repeat (Thr i) (5 * length vs)) w = Some w' /\
    threads w' !! i = Some (L86 t) /\
    paused (ds w') = false /\
    gen_pos w' = gen_pos w + length vs /\
    sink_st w' = foldl (fun st x => out_state (send s st x)) (sink_st w) vs /\
    deliveries (trace w') = deliveries (trace w) ++ map (pair i) vs.
Proof.
  intros Hpc Hs Hok Hp Ht Hr Hg Hvs.
  edestruct loop_iterations
    as (w' & Hrun & Hth & Hds & Hpos & Hst & Hdel);
    [exact Hpc|exact Hs|exact Hok|exact Hp|exact Ht|exact Hr|exact Hg
    |exact Hvs|].
  exists w'. split; [exact Hrun|].
  split; [by rewrite Hth|]. split; [by rewrite Hds|].
  split; [exact Hpos|]. split; [exact Hst|exact Hdel].
Qed.

(** X6. On CPython, with a [data_rate] between [- 2^1021] and [- 2^-33]
    the first delivery of a loop is its last: line 91 hands [time.sleep] a
    negative duration, which it refuses; the [ValueError] escapes from
    [loop], and the thread ends with [paused] left as it was. *)
Theorem negative_rate_ends_loop w i t v (s : Sink Tick SinkSt) :
  (forall secs, time_sleep secs = cpython_sleep secs) ->
  threads w !! i = Some (L90 t v) ->
  sink (ds w) = Some s ->
  out_exn (send s (sink_st w) v) = None ->
  (- 2 ^ 1021 <= data_rate (ds w))%Q ->
  (data_rate (ds w) <= - 2 ^ (-33))%Q ->
  exists w',
    run [Thr i; Thr i] w = Some w' /\
    threads w' !! i = Some (LRaised ValueError) /\
    step (Thr i) w' = None /\
    paused (ds w') = paused (ds w) /\
    trace w' = EvUncaught i ValueError :: EvDeliver i v None
               :: map EvLog (out_logs (send s (sink_st w) v)) ++ trace w.
Proof.
  intros Hcpython Hpc Hs Hok Hlo Hhi.
  assert (Hlt : i < length (threads w)) by (eapply lookup_lt_Some, Hpc).
  destruct (cpython_refuses_negative_rate Hlo Hhi)
    as (secs & Hsecs & Hneg & Hrefuse).
  assert (Hnz : ~ (data_rate (ds w) == 0)%Q).
  { intros Hz. rewrite Hz in Hhi. by apply Qle_bool_iff in Hhi. }
  assert (H91 : line_91 (data_rate (ds w)) = inr ValueError)
    by (by rewrite (line_91_sleep_length Hnz Hsecs), Hcpython, Hrefuse).
  simpl. unfold loop_step at 1. rewrite Hpc, Hs. simpl. rewrite Hok.
  unfold loop_step at 1. simpl.
  rewrite list_lookup_insert_eq by done. simpl. rewrite H91.
  eexists. split; [reflexivity|].
  split; [simpl; rewrite list_insert_insert_eq;
          by apply list_lookup_insert_eq|].
  split; [|done].
  unfold loop_step. simpl.
  by rewrite list_insert_insert_eq, list_lookup_insert_eq.
Qed.

End Barrier.

(** ** The application: [toggle_pause], [next_candle] and [send] *)

Section ApplicationFacts.

Variable Tick : Type.
Variable App : Type.
Variable Line : Type.
Context {platform : Platform}.

#[local] Abbreviation World := (World Tick App).

Implicit Types (w : World) (ops : ChartOps Tick App Line).


(** X8. [toggle_pause] while exactly one loop is alive, past line 84 and
    bound to [self.thread]: it calls [pause], and when that call has
    returned the pipeline is paused, [self.thread] is [None] and every
    thread has ended. *)
Theorem toggle_stops_the_running_loop w j pc sched w' :
  ctl w = CReady ->
  paused (ds w) = false ->
  thread (ds w) = Some j ->
  threads w !! j = Some pc ->
  past_84 pc = true ->
  others_finished j (threads w) ->
  run sched (toggle_pause w) = Some w' ->
  ctl w' = CReady ->
  prog w' = prog w ->
  paused (ds w') = true /\
  thread (ds w') = None /\
  all_finished (threads w').
Proof.
  intros Hc Hpa Hth Hpc Hpast Hoth Hrun Hc' Hp'.
  assert (Hj : joining j (prog w) (toggle_pause w)).
  { right. unfold toggle_pause. rewrite Hpa. simpl.
    split; [done|]. split; [exists pc; split; [done|by left]|].
    rewrite Hc. by left. }
  pose proof (joining_run _ Hj Hrun) as Hj'.
  by apply (joining_done Hj').
Qed.

(** X9. [next_candle] raises only when a generator is bound and exhausted:
    the [StopIteration] of [next] escapes before [send] is entered, and the
    application and the generator are left untouched. *)
Theorem next_candle_raises_only_when_exhausted ops
    (d : DataSource Tick App) pos st :
  (forall g, source_gen d = Some g -> g pos = None ->
     next_candle ops d pos st = (Some StopIteration, pos, st, [])) /\
  (forall e pos' st' logs,
     next_candle ops d pos st = (Some e, pos', st', logs) ->
     e = StopIteration /\ pos' = pos /\ st' = st /\ logs = [] /\
     exists g, source_gen d = Some g /\ g pos = None).
Proof.
  unfold next_candle, DataSource_next, gen_next. split.
  - intros g Hg Hnone. by rewrite Hg, Hnone.
  - intros e pos' st' logs.
    destruct (source_gen d) as [g|].
    + destruct (g pos) as [v|] eqn:Hv.
      * destruct (CandleApp_send ops (Some v) st). intros; simplify_eq.
      * intros; simplify_eq. eauto 10.
    + destruct (CandleApp_send ops None st). intros; simplify_eq.
Qed.

(** X10. A value the chart refuses is lost: when [add_ohlc] raises on the
    value [next_candle] has pulled, the call returns normally with the
    failure logged, the generator has moved on, and neither [format] nor
    [update_text] has run. *)
Theorem next_candle_loses_refused_value ops (d : DataSource Tick App)
    (g : Generator Tick) pos v st st1 e :
  source_gen d = Some g ->
  g pos = Some v ->
  add_ohlc ops v st = (st1, inr e) ->
  next_candle ops d pos st = (None, S pos, st1, [send_failed]).
Proof.
  intros Hg Hv Hadd.
  unfold next_candle, DataSource_next, gen_next. rewrite Hg, Hv.
  unfold CandleApp_send, send_body, mbind, M_bind. by rewrite Hadd.
Qed.

(** X11. With no generator bound [next_candle] only redraws: [send(None)]
    skips [add_ohlc], so the outcome is that of [format] followed by the
    check of the first line and [update_text]; nothing is raised and no
    cursor moves. *)
Theorem next_candle_without_generator_redraws ops
    (d : DataSource Tick App) pos st :
  source_gen d = None ->
  exists st' logs,
    next_candle ops d pos st = (None, pos, st', logs) /\
    (st', logs) = CandleApp_send ops None st /\
    forall add : Tick -> M App unit,
      CandleApp_send
        {| add_ohlc := add; format := format ops; is_str := is_str ops;
           update_text := update_text ops |} None st
      = (st', logs).
Proof.
  intros Hg. unfold next_candle, DataSource_next. rewrite Hg.
  destruct (CandleApp_send ops None st) as [st' logs] eqn:Hsend.
  exists st', logs. split; [done|]. split; [done|].
  intros add. rewrite <- Hsend. reflexivity.
Qed.

(** X12. [send] looks at the type of the first formatted line only: when it
    is a [str], [ValueError] is raised inside the [try] and logged,
    [update_text] is not run, and what [add_ohlc] and [format] did to the
    application stays done. *)
Theorem send_refuses_text_lines ops ohlc st st1 st2 l ls :
  match ohlc with
  | Some v => add_ohlc ops v st
  | None => (st, inl tt)
  end = (st1, inl tt) ->
  format ops st1 = (st2, inl (l :: ls)) ->
  is_str ops l = true ->
  CandleApp_send ops ohlc st = (st2, [send_failed]).
Proof.
  intros Hadd Hfmt Hstr.
  unfold CandleApp_send, send_body, mbind, M_bind, mret, M_ret, raise.
  destruct ohlc as [v|]; simpl in *.
  - by rewrite Hadd, Hfmt, Hstr.
  - simplify_eq. by rewrite Hfmt, Hstr.
Qed.

End ApplicationFacts.

(** ** The two resize keys *)

Lemma all_below_spec bits : forall base P h,
  all_below bits base P = true ->
  (base <= h < base + 2 ^ Z.of_nat bits)%Z ->
  P h = true.
Proof.
  induction bits as [|k IH]; intros base P h Hall Hh.
  - simpl in *. replace h with base by lia. done.
  - simpl in Hall. apply andb_prop in Hall as [Hlo Hhi].
    rewrite Nat2Z.inj_succ, Z.pow_succ_r in Hh by lia.
    destruct (Z_lt_le_dec h (base + 2 ^ Z.of_nat k)).
    + apply (IH base); [done|lia].
    + apply (IH (base + 2 ^ Z.of_nat k)%Z); [done|lia].
Qed.

(** On the heights and widths a terminal can have (its size is a pair of
    16-bit numbers), the double-precision product and its truncation give
    the integer part of [6 * h / 5]. *)
Lemma int_times_1_2_is_exact (h : Z) :
  (0 <= h < 65536)%Z -> int_times_1_2 h = Some (6 * h / 5)%Z.
Proof.
  intros Hh.
  assert (Hall : all_below 16 0 times_1_2_exact = true)
    by (vm_compute; reflexivity).
  apply all_below_spec with (h := h) in Hall; [|simpl; lia].
  unfold times_1_2_exact in Hall.
  destruct (int_times_1_2 h) as [v|]; [|done].
  f_equal. by apply Z.eqb_eq.
Qed.

Lemma resize_height_below_bound (x y h : Z) :
  (5 <= h < y - 5)%Z ->
  (h < 65536)%Z ->
  resize_height (x, y) h = Some (Z.min (y - 5) (6 * h / 5)) /\
  (h < Z.min (y - 5) (6 * h / 5) <= y - 5)%Z.
Proof.
  intros Hh Hsmall. unfold resize_height.
  destruct (Z.leb_spec (y - 5) h) as [?|_]; [lia|].
  rewrite int_times_1_2_is_exact by lia. split; [reflexivity|].
  assert (h + 1 <= 6 * h / 5)%Z by (apply Z.div_le_lower_bound; lia).
  lia.
Qed.

(** X13. [resize_height] on a chart of height [h] with [5 <= h] below the
    bound [y - 5]: the height asked for is [min (y - 5) (6 * h / 5)], which
    is strictly more than [h] and at most the bound. *)
Theorem resize_height_grows (x y h : Z) :
  (5 <= h < y - 5)%Z ->
  (h < 65536)%Z ->
  exists h',
    resize_height (x, y) h = Some h' /\
    h' = Z.min (y - 5) (6 * h / 5) /\
    (h < h' <= y - 5)%Z.
Proof.
  intros Hh Hsmall.
  destruct (@resize_height_below_bound x y h Hh Hsmall) as [Hr Hb].
  eexists. split; [exact Hr|]. split; [reflexivity|exact Hb].
Qed.

(** X14. A chart of height 0 to 4 below the bound cannot be grown: the
    product [h * 1.2] truncates back to [h], so the height asked for is the
    height the chart has. *)
Theorem resize_height_is_stuck_below_5 (x y h : Z) :
  (0 <= h < 5)%Z ->
  (h < y - 5)%Z ->
  resize_height (x, y) h = Some h.
Proof.
  intros Hh Hy. unfold resize_height.
  destruct (Z.leb_spec (y - 5) h) as [?|_]; [lia|].
  rewrite int_times_1_2_is_exact by lia.
  assert (6 * h / 5 = h)%Z.
  { assert (h = 0 \/ h = 1 \/ h = 2 \/ h = 3 \/ h = 4)%Z as Hc by lia.
    destruct Hc as [->|[->|[->|[->| ->]]]]; reflexivity. }
  f_equal. lia.
Qed.

Lemma press_H_snoc s n : forall h h1,
  press_H s n h = Some h1 -> press_H s (S n) h = resize_height s h1.
Proof.
  induction n as [|n IH]; intros h h1 Hn.
  - simpl in *. simplify_eq. by destruct (resize_height s h1).
  - simpl in Hn. change (press_H s (S (S n)) h)
      with (match resize_height s h with
            | Some h' => press_H s (S n) h'
            | None => None
            end).
    destruct (resize_height s h) as [h'|]; [|done]. by apply IH.
Qed.

Lemma press_H_climbs (x y : Z) (m : nat) : forall h,
  (5 <= h <= y - 5)%Z ->
  (y - 5 <= 65536)%Z ->
  (y - 5 - h <= Z.of_nat m)%Z ->
  exists n, n <= m /\ press_H (x, y) n h = Some (y - 5)%Z.
Proof.
  induction m as [|m IH]; intros h Hh Hy Hm.
  - exists 0. split; [done|]. simpl. f_equal. lia.
  - destruct (Z.eq_dec h (y - 5)%Z) as [->|Hne].
    + exists 0. split; [lia|done].
    + destruct (@resize_height_below_bound x y h) as (Hr & Hh'); [lia|lia|].
      destruct (IH (Z.min (y - 5) (6 * h / 5))) as (n & Hn & Hpress);
        [lia|lia|lia|].
      exists (S n). split; [lia|]. cbn [press_H]. by rewrite Hr.
Qed.

(** X15. The key H cycles: on a screen whose bound [y - 5] is more than 5,
    a chart that takes the heights it is asked to take goes from 5 up to
    exactly [y - 5] in at most [y - 10] presses, and the next press takes it
    back to 5. *)
Theorem press_H_cycles (x y : Z) :
  (5 < y - 5 <= 65536)%Z ->
  exists n,
    (Z.of_nat n <= y - 10)%Z /\
    press_H (x, y) n 5 = Some (y - 5)%Z /\
    press_H (x, y) (S n) 5 = Some 5%Z.
Proof.
  intros Hy.
  destruct (@press_H_climbs x y (Z.to_nat (y - 10)) 5%Z)
    as (n & Hn & Hpress); [lia|lia|lia|].
  exists n. split; [lia|]. split; [done|].
  erewrite press_H_snoc by exact Hpress. unfold resize_height.
  destruct (Z.leb_spec (y - 5) (y - 5)); [done|lia].
Qed.

(** X16. On a screen of at most 10 rows every press of H on a chart that
    has reached the bound asks for height 5, which is more than the bound
    [y - 5] when the screen has fewer than 10 rows. *)
Theorem resize_height_on_small_screen (x y h : Z) (n : nat) :
  (y - 5 <= 5)%Z ->
  (y - 5 <= h)%Z ->
  press_H (x, y) (S n) h = Some 5%Z /\
  ((y < 10)%Z -> (y - 5 < 5)%Z).
Proof.
  intros Hy Hh. split; [|lia].
  assert (Hwrap : forall h0, (y - 5 <= h0)%Z ->
            resize_height (x, y) h0 = Some 5%Z).
  { intros h0 H0. unfold resize_height.
    destruct (Z.leb_spec (y - 5) h0); [done|lia]. }
  revert h Hh. induction n as [|n IH]; intros h Hh.
  - cbn [press_H]. by rewrite Hwrap.
  - change (press_H (x, y) (S (S n)) h)
      with (match resize_height (x, y) h with
            | Some h' => press_H (x, y) (S n) h'
            | None => None
            end).
    rewrite Hwrap by done. apply IH. lia.
Qed.

(** X17. [resize_width]: below the bound [x - 3] a width [w] of at least 5
    grows to [min (x - 3) (6 * w / 5)]; at or above the bound the width asked
    for is 20, whatever the bound, so that on a terminal of fewer than 23
    columns the chart is asked to be wider than the bound and stays so. *)
Theorem resize_width_grows_or_resets (x y w : Z) :
  ((5 <= w < x - 3)%Z -> (w < 65536)%Z ->
   exists w',
     resize_width (x, y) w = Some w' /\
     w' = Z.min (x - 3) (6 * w / 5) /\
     (w < w' <= x - 3)%Z) /\
  ((x - 3 <= w)%Z -> resize_width (x, y) w = Some 20%Z) /\
  ((x - 3 <= w)%Z -> (x < 23)%Z ->
   resize_width (x, y) 20 = Some 20%Z /\ (x - 3 < 20)%Z).
Proof.
  unfold resize_width. split; [|split].
  - intros Hw Hsmall.
    destruct (Z.leb_spec (x - 3) w) as [?|_]; [lia|].
    rewrite int_times_1_2_is_exact by lia.
    eexists. split; [reflexivity|]. split; [reflexivity|].
    assert (w + 1 <= 6 * w / 5)%Z by (apply Z.div_le_lower_bound; lia).
    lia.
  - intros Hw. destruct (Z.leb_spec (x - 3) w); [done|lia].
  - intros Hw Hx. split; [|lia].
    destruct (Z.leb_spec (x - 3) 20); [done|lia].
Qed.

(** ** The properties of the loop discipline on concrete inputs *)

Lemma next_returns_generator_values_witness :
  exists w',
    run (repeat Ctl 6) (boot demo [] [CallNext; CallNext; CallNext])
    = Some w' /\
    next_results (trace w')
    = [Returned (Some 1); Returned (Some 2); Returned (Some 3)] /\
    gen_pos w' = 3.
Proof.
  destruct (@next_returns_generator_values nat (list nat) cpython
              (boot demo [] [CallNext; CallNext; CallNext]) 3 [])
    as ((w' & Hrun) & _ & Hres).
  - constructor.
  - reflexivity.
  - reflexivity.
  - intros g k Hg Hk. simpl in Hg. simplify_eq. by eexists.
  - exists w'. split; [exact Hrun|].
    destruct (Hres (repeat Ctl 6) w' eq_refl Hrun) as (H1 & H2 & _).
    split; [exact H1|exact H2].
Defined.

(** C6, as the specification states it, fails: with a loop alive, the calls
    of [next] and the loop take their values from the same cursor, also
    while [paused] is true.  After [unpause(); unpause(); pause()] with a
    late first thread, [pause] has returned and [paused] is true; a call of
    [next] returns 2, the loop that [pause] did not join fetches 3 at line
    89, and the next call of [next] returns 4. *)
Lemma next_shares_the_cursor_with_a_late_loop :
  exists w1 w2 w3 w4,
    run shared_prefix shared_start = Some w1 /\
    paused (ds w1) = true /\
    hd_error (trace w1) = Some (EvReturn CallPause (Returned None)) /\
    threads w1 = [L89 (Some 1); LReturned] /\
    run [Ctl; Ctl] w1 = Some w2 /\
    paused (ds w2) = true /\
    hd_error (trace w2) = Some (EvReturn CallNext (Returned (Some 2))) /\
    step (Thr 0) w2 = Some w3 /\
    paused (ds w3) = true /\
    threads w3 = [L90 (Some 1) 3; LReturned] /\
    run [Ctl; Ctl] w3 = Some w4 /\
    paused (ds w4) = true /\
    next_results (trace w4) = [Returned (Some 2); Returned (Some 4)].
Proof.
  do 4 eexists.
  split; [vm_compute; reflexivity|]. do 3 (split; [reflexivity|]).
  split; [vm_compute; reflexivity|]. do 2 (split; [reflexivity|]).
  split; [vm_compute; reflexivity|]. do 2 (split; [reflexivity|]).
  split; [vm_compute; reflexivity|]. split; reflexivity.
Qed.

Lemma pause_joins_the_running_loop_witness :
  exists w',
    run pause_sched (running_alone [CallPause]) = Some w' /\
    paused (ds w') = true /\
    thread (ds w') = None /\
    threads w' = [LReturned].
Proof.
  eexists. split; [vm_compute; reflexivity|].
  match goal with
  | |- paused (ds ?w') = _ /\ _ =>
      destruct (@pause_joins_the_running_loop nat (list nat) cpython
                  (running_alone [CallPause]) 0 (L86 (Some 0)) []
                  pause_sched w')
        as (H1 & H2 & _)
  end; try reflexivity.
  - intros i pc Hne Hi. destruct i as [|i]; [done|]. discriminate Hi.
  - split; [exact H1|]. split; [exact H2|reflexivity].
Defined.

Lemma loop_ends_within_one_iteration_witness :
  exists n w',
    n <= 5 /\
    run (repeat (Thr 0) n)
        (example_world true (Some 0) [L87 (Some 0)] []) = Some w' /\
    length (deliveries (trace w')) <= 1.
Proof.
  destruct (@loop_ends_within_one_iteration nat (list nat) cpython
              (example_world true (Some 0) [L87 (Some 0)] []) 0
              (L87 (Some 0)))
    as (n & w' & Hn & Hrun & _ & _ & Hdel & _);
    [reflexivity|reflexivity|reflexivity|].
  exists n, w'. split; [exact Hn|]. split; [exact Hrun|exact Hdel].
Defined.

Lemma idle_pipeline_is_silent_witness :
  exists w',
    run [Ctl; Ctl; Ctl; Ctl]
        (example_world true None [LReturned] [CallNext; CallPause])
    = Some w' /\
    deliveries (trace w') = [] /\
    threads w' = [LReturned].
Proof.
  eexists. split; [vm_compute; reflexivity|].
  match goal with
  | |- deliveries (trace ?w') = _ /\ _ =>
      destruct (@idle_pipeline_is_silent nat (list nat) cpython
                  [Ctl; Ctl; Ctl; Ctl]
                  (example_world true None [LReturned] [CallNext; CallPause])
                  w')
        as (H1 & _ & H2)
  end.
  - repeat constructor.
  - reflexivity.
  - simpl. intros [H|[H|[]]]; discriminate H.
  - vm_compute; reflexivity.
  - split; [exact H1|exact H2].
Defined.

Lemma pause_without_thread_raises_witness :
  exists w,
    run orphan_sched orphan_start = Some w /\
    paused (ds w) = false /\
    thread (ds w) = None /\
    exists w',
      run [Ctl; Ctl; Ctl; Ctl; Ctl] w = Some w' /\
      ctl w' = CRaised AttributeError /\
      paused (ds w') = true.
Proof.
  eexists. split; [vm_compute; reflexivity|].
  split; [reflexivity|]. split; [reflexivity|].
  match goal with
  | |- exists w', run _ ?w = _ /\ _ =>
      destruct (@pause_without_thread_raises nat (list nat) cpython w [])
        as (w' & Hrun & Hctl & _ & Hp & _);
        [reflexivity|reflexivity|reflexivity|reflexivity|]
  end.
  exists w'. split; [exact Hrun|]. split; [exact Hctl|exact Hp].
Defined.

Lemma solo_loop_delivers_in_order_witness :
  exists w',
    run (repeat (Thr 0) 15) (running_alone []) = Some w' /\
    sink_st w' = [1; 2; 3; 4] /\
    deliveries (trace w') = [(0, 2); (0, 3); (0, 4)].
Proof.
  destruct (@solo_loop_delivers_in_order nat (list nat) cpython recorder counting
              [2; 3; 4] (running_alone []) 0 (Some 0))
    as (w' & Hrun & _ & _ & _ & Hst & Hdel);
    try reflexivity; [intros e; vm_compute; discriminate| |].
  - intros k v Hk. destruct k as [|[|[|k]]]; simpl in Hk; by simplify_eq.
  - exists w'. split; [exact Hrun|]. split; [exact Hst|exact Hdel].
Defined.

Lemma negative_rate_ends_loop_witness :
  exists w',
    run [Thr 0; Thr 0] (at_line_90 recorder (-1)) = Some w' /\
    threads w' !! 0 = Some (LRaised ValueError) /\
    paused (ds w') = false.
Proof.
  destruct (@negative_rate_ends_loop nat (list nat) cpython
              (at_line_90 recorder (-1)) 0 (Some 0) 1 recorder)
    as (w' & Hrun & Hpc & _ & Hp & _);
    [reflexivity|reflexivity|reflexivity|reflexivity
    |by apply Qle_bool_iff; vm_compute|by apply Qle_bool_iff; vm_compute|].
  exists w'. split; [exact Hrun|]. split; [exact Hpc|exact Hp].
Defined.

(** Closer to 0 the duration is beyond what [time.sleep] converts, and the
    exception is [OverflowError]. *)
Lemma tiny_negative_rate_overflows :
  exists w',
    run [Thr 0; Thr 0] (at_line_90 recorder (- one_per_1e11)) = Some w' /\
    threads w' = [LRaised OverflowError].
Proof. eexists. split; [vm_compute; reflexivity|reflexivity]. Qed.


Lemma toggle_stops_the_running_loop_witness :
  exists w',
    run pause_sched (toggle_pause (running_alone [])) = Some w' /\
    paused (ds w') = true /\
    thread (ds w') = None.
Proof.
  eexists. split; [vm_compute; reflexivity|].
  match goal with
  | |- paused (ds ?w') = _ /\ _ =>
      destruct (@toggle_stops_the_running_loop nat (list nat) cpython
                  (running_alone []) 0 (L86 (Some 0)) pause_sched w')
        as (H1 & H2 & _)
  end; try reflexivity.
  - intros i pc Hne Hi. destruct i as [|i]; [done|]. discriminate Hi.
  - split; [exact H1|exact H2].
Defined.

Lemma next_candle_raises_only_when_exhausted_witness :
  next_candle (brittle_chart 0)
    (DataSource_init (Some (upto 1)) 10 None) 1 [1]
  = (Some StopIteration, 1, [1], []).
Proof.
  destruct (@next_candle_raises_only_when_exhausted nat (list nat) nat
              (brittle_chart 0) (DataSource_init (Some (upto 1)) 10 None)
              1 [1]) as (Hraise & _).
  apply (Hraise (upto 1)); reflexivity.
Defined.

Lemma next_candle_loses_refused_value_witness :
  next_candle (brittle_chart 1) (DataSource_init (Some counting) 10 None)
    0 []
  = (None, 1, [], [send_failed]).
Proof.
  apply (@next_candle_loses_refused_value nat (list nat) nat
           (brittle_chart 1) (DataSource_init (Some counting) 10 None)
           counting 0 1 [] [] (OtherError 1)); reflexivity.
Defined.

Lemma next_candle_without_generator_redraws_witness :
  next_candle (brittle_chart 0) (DataSource_init None 10 None) 0 [7]
  = (None, 0, [7], []).
Proof.
  destruct (@next_candle_without_generator_redraws nat (list nat) nat
              (brittle_chart 0) (DataSource_init None 10 None) 0 [7])
    as (st' & logs & Hnc & Hsend & _); [reflexivity|].
  rewrite Hnc. vm_compute in Hsend. by simplify_eq.
Defined.

Lemma send_refuses_text_lines_witness :
  CandleApp_send text_chart (Some 3) [1; 2] = ([1; 2; 3], [send_failed]).
Proof.
  apply (@send_refuses_text_lines nat (list nat) nat text_chart (Some 3)
           [1; 2] [1; 2; 3] [1; 2; 3] 1 [2; 3]); reflexivity.
Defined.

Lemma resize_height_grows_witness :
  exists h', resize_height (80, 24)%Z 15 = Some h' /\ h' = 18%Z.
Proof.
  destruct (@resize_height_grows 80 24 15) as (h' & Hr & Hh & _);
    [lia|lia|].
  exists h'. split; [exact Hr|]. rewrite Hh. reflexivity.
Defined.

Lemma resize_height_is_stuck_below_5_witness :
  resize_height (80, 24)%Z 4 = Some 4%Z.
Proof. apply resize_height_is_stuck_below_5; lia. Defined.

Lemma press_H_cycles_witness :
  exists n,
    press_H (80, 24)%Z n 5 = Some 19%Z /\
    press_H (80, 24)%Z (S n) 5 = Some 5%Z.
Proof.
  destruct (@press_H_cycles 80 24) as (n & _ & Hup & Hback); [lia|].
  exists n. split; [exact Hup|exact Hback].
Defined.

Lemma resize_height_on_small_screen_witness :
  press_H (80, 8)%Z 3 15 = Some 5%Z.
Proof.
  destruct (@resize_height_on_small_screen 80 8 15 2) as (H & _);
    [lia|lia|exact H].
Defined.

Lemma resize_width_grows_or_resets_witness :
  (exists w', resize_width (80, 24)%Z 60 = Some w' /\ w' = 72%Z) /\
  resize_width (20, 24)%Z 60 = Some 20%Z.
Proof.
  split.
  - destruct (@resize_width_grows_or_resets 80 24 60) as (Hgrow & _).
    destruct Hgrow as (w' & Hr & Hw & _); [lia|lia|].
    exists w'. split; [exact Hr|]. rewrite Hw. reflexivity.
  - destruct (@resize_width_grows_or_resets 20 24 60) as (_ & Hreset & _).
    apply Hreset. lia.
Defined.

(** ** [unpause] on a pipeline with at most one loop *)

Section RestartFacts.

Variable Tick : Type.
Variable SinkSt : Type.
Context {platform : Platform}.

#[local] Abbreviation World := (World Tick SinkSt).

Implicit Types (w : World) (i j : Tid) (pc : LoopPc Tick).

(** A step of a loop thread changes its own program counter and neither the
    controller nor [self.thread]. *)
Lemma loop_step_local w i w' :
  step (Thr i) w = Some w' ->
  ctl w' = ctl w /\ prog w' = prog w /\ thread (ds w') = thread (ds w) /\
  exists pc', threads w' = <[i := pc']> (threads w).
Proof.
  simpl. unfold loop_step. intros Hstep.
  repeat case_match; simplify_eq; simpl; eauto 10.
Qed.

Lemma others_finished_stuck j w i :
  others_finished j (threads w) -> i <> j -> step (Thr i) w = None.
Proof.
  intros Hoth Hne. destruct (threads w !! i) as [pc|] eqn:Hi.
  - eapply finished_stuck; [exact Hi|]. eapply Hoth; eauto.
  - simpl. unfold loop_step. by rewrite Hi.
Qed.

Lemma one_loop_at_most_step j w i w' :
  one_loop_at_most j w ->
  step (Thr i) w = Some w' ->
  ds w' = ds w /\ ctl w' = ctl w /\ prog w' = prog w /\
  length (threads w') = length (threads w) /\
  one_loop_at_most j w' /\
  others_finished j (threads w') /\
  exists pc, threads w' !! j = Some pc /\ winding_down pc.
Proof.
  intros [(Hp & Hall)|(Hp & Hth & Hoth & pc & Hpc & Hwd)] Hstep.
  { rewrite all_finished_stuck in Hstep; done. }
  destruct (decide (i = j)) as [->|Hne];
    [|rewrite (others_finished_stuck _ Hoth Hne) in Hstep; done].
  edestruct step_past_84 as (Hds & Hc & Hpr & pc' & Hth' & Hwd');
    [exact Hpc|exact Hwd|exact Hstep|].
  assert (Hlt : j < length (threads w)) by (eapply lookup_lt_Some, Hpc).
  assert (Hpc' : threads w' !! j = Some pc')
    by (rewrite Hth'; by apply list_lookup_insert_eq).
  assert (Hoth' : others_finished j (threads w'))
    by (rewrite Hth'; by apply others_finished_insert).
  split; [done|]. split; [done|]. split; [done|].
  split; [by rewrite Hth', length_insert|].
  split; [|eauto].
  right. rewrite Hds. eauto 10.
Qed.

Lemma others_finished_new (ts : list (LoopPc Tick)) pc :
  all_finished ts -> others_finished (length ts) (ts ++ [pc]).
Proof.
  intros Hall i x Hne Hi.
  destruct (decide (i < length ts)) as [Hlt|Hge].
  - rewrite lookup_app_l in Hi by done.
    eapply Forall_lookup_1 in Hall; eauto.
  - apply lookup_lt_Some in Hi. rewrite length_app in Hi. simpl in Hi. lia.
Qed.

Lemma restarting_step j n rest a w w' :
  restarting j n rest w -> step a w = Some w' -> restarting j n rest w'.
Proof.
  intros [Hlen|Hctl] Hstep.
  { left. apply prog_shrinks in Hstep. lia. }
  destruct a as [|i].
  - simpl in Hstep. unfold ctl_step in Hstep.
    destruct (ctl w) as [|k|k|k|k t|k| |u|u| |] eqn:Ec; try done;
      try (destruct k; try done).
    + destruct Hctl as [(Hp & Hn & Hone)|(Hp & Hn & Hth & Hoth)].
      * rewrite Hp in Hstep. simplify_eq. right. simpl. done.
      * left. destruct (prog w) as [|c rest']; [done|].
        destruct c; simplify_eq; simpl; lia.
    + destruct Hctl as (Hp & Hn & Hone).
      destruct Hone as [(Hpa & Hall)|(Hpa & Hrest)];
        rewrite Hpa in Hstep; simplify_eq; right; simpl; [done|].
      split; [done|]. split; [done|]. split; [done|]. by right.
    + destruct Hctl as (Hp & Hn & Hpa & Hone). simplify_eq.
      destruct Hone as [(Hpa' & _)|(_ & Hth & Hoth & Hex)]; [congruence|].
      right. simpl. done.
    + destruct Hctl as (Hp & Hn & Hth & Hoth & Hex). simplify_eq.
      right. simpl. done.
    + destruct Hctl as (Hp & Hn & -> & Hoth & pc & Hpc & Hwd).
      rewrite Hpc in Hstep.
      destruct (finished pc) eqn:Hfin.
      * assert (Hall : all_finished (threads w))
          by (eapply all_finished_intro; eauto).
        destruct pc; simpl in Hfin; try done; simplify_eq;
          right; simpl; done.
      * destruct pc; simpl in Hfin; try done.
        destruct Hwd as [Hwd|Hwd]; simpl in Hwd; done.
    + destruct Hctl as (Hp & Hn & Hall). simplify_eq. right. simpl. done.
    + destruct Hctl as (Hp & Hn & Hall). simplify_eq. right. simpl.
      rewrite length_app. simpl.
      split; [done|]. split; [lia|]. split; [done|]. split; [done|].
      split; [by apply others_finished_new|].
      rewrite lookup_app_r by lia. by rewrite Nat.sub_diag.
    + destruct Hctl as (Hp & Hn & -> & Hth & Hoth & Hnew). simplify_eq.
      right. simpl. done.
    + destruct Hctl as (Hp & Hn & -> & Hth & Hoth & Hnew). simplify_eq.
      right. simpl. right. rewrite length_insert.
      split; [done|]. split; [done|]. split; [done|].
      by apply others_finished_insert.
  - destruct (loop_step_local _ _ Hstep) as (Hc & Hp & Hth & pc' & Hts).
    right. rewrite Hc, Hp.
    destruct (ctl w) as [|k|k|k|k t|k| |u|u| |] eqn:Ec; try done;
      try (destruct k; try done).
    + destruct Hctl as [(Hpr & Hn & Hone)|(Hpr & Hn & Hb & Hoth)].
      * left. edestruct one_loop_at_most_step
          as (_ & _ & _ & Hlen & Hone' & _); [exact Hone|exact Hstep|].
        split; [done|]. split; [congruence|done].
      * right. rewrite Hth, Hts, length_insert.
        split; [done|]. split; [done|]. split; [done|].
        destruct (decide (i = n)) as [->|Hne];
          [by apply others_finished_insert|].
        rewrite (others_finished_stuck _ Hoth Hne) in Hstep. done.
    + destruct Hctl as (Hpr & Hn & Hone).
      edestruct one_loop_at_most_step
        as (_ & _ & _ & Hlen & Hone' & _); [exact Hone|exact Hstep|].
      split; [done|]. split; [congruence|done].
    + destruct Hctl as (Hpr & Hn & Hpa & Hone).
      edestruct one_loop_at_most_step
        as (Hds & _ & _ & Hlen & Hone' & _); [exact Hone|exact Hstep|].
      split; [done|]. split; [congruence|]. split; [by rewrite Hds|done].
    + destruct Hctl as (Hpr & Hn & Hb & Hoth & pc & Hpc & Hwd).
      destruct (decide (i = j)) as [->|Hne];
        [|rewrite (others_finished_stuck _ Hoth Hne) in Hstep; done].
      edestruct step_past_84 as (_ & _ & _ & pc1 & Hts1 & Hwd1);
        [exact Hpc|exact Hwd|exact Hstep|].
      assert (Hlt : j < length (threads w)) by (eapply lookup_lt_Some, Hpc).
      rewrite Hth, Hts1, length_insert.
      split; [done|]. split; [done|]. split; [done|].
      split; [by apply others_finished_insert|].
      exists pc1. split; [by apply list_lookup_insert_eq|done].
    + destruct Hctl as (Hpr & Hn & -> & Hoth & pc & Hpc & Hwd).
      destruct (decide (i = j)) as [->|Hne];
        [|rewrite (others_finished_stuck _ Hoth Hne) in Hstep; done].
      edestruct step_past_84 as (_ & _ & _ & pc1 & Hts1 & Hwd1);
        [exact Hpc|exact Hwd|exact Hstep|].
      assert (Hlt : j < length (threads w)) by (eapply lookup_lt_Some, Hpc).
      rewrite Hts1, length_insert.
      split; [done|]. split; [done|]. split; [done|].
      split; [by apply others_finished_insert|].
      exists pc1. split; [by apply list_lookup_insert_eq|done].
    + destruct Hctl as (_ & _ & Hall).
      rewrite all_finished_stuck in Hstep; done.
    + destruct Hctl as (_ & _ & Hall).
      rewrite all_finished_stuck in Hstep; done.
    + destruct Hctl as (_ & _ & _ & _ & Hoth & Hnew). exfalso.
      destruct (decide (i = n)) as [->|Hne];
        [|rewrite (others_finished_stuck _ Hoth Hne) in Hstep; done].
      simpl in Hstep. unfold loop_step, Tid in *. by rewrite Hnew in Hstep.
    + destruct Hctl as (_ & _ & _ & _ & Hoth & Hnew). exfalso.
      destruct (decide (i = n)) as [->|Hne];
        [|rewrite (others_finished_stuck _ Hoth Hne) in Hstep; done].
      simpl in Hstep. unfold loop_step, Tid in *. by rewrite Hnew in Hstep.
Qed.

Lemma restarting_run j n rest sched w w' :
  restarting j n rest w -> run sched w = Some w' -> restarting j n rest w'.
Proof.
  revert w. induction sched as [|a sched IH]; intros w Hw Hrun; simpl in Hrun.
  - by simplify_eq.
  - destruct (step a w) as [w1|] eqn:Hstep; [|done].
    eapply IH; [|exact Hrun]. eapply restarting_step; eauto.
Qed.

(** X18. [unpause()] called while at most one loop is alive, that loop
    being past line 84 and bound to [self.thread] (or every thread having
    ended and [paused] being true): whatever the interleaving, when the call
    has returned exactly one thread has been created, it is bound to
    [self.thread], and every other thread has ended. *)
Theorem unpause_leaves_one_loop w j rest sched w' :
  ctl w = CReady ->
  prog w = CallUnpause :: rest ->
  one_loop_at_most j w ->
  run sched w = Some w' ->
  ctl w' = CReady ->
  prog w' = rest ->
  length (threads w') = S (length (threads w)) /\
  thread (ds w') = Some (length (threads w)) /\
  others_finished (length (threads w)) (threads w').
Proof.
  intros Hc Hp Hone Hrun Hc' Hp'.
  assert (Hr : restarting j (length (threads w)) rest w).
  { right. rewrite Hc. by left. }
  pose proof (restarting_run _ Hr Hrun) as [Hlen|Hctl].
  { rewrite Hp' in Hlen. lia. }
  rewrite Hc' in Hctl.
  destruct Hctl as [(Hp'' & _)|(_ & ? & ? & ?)]; [|done].
  rewrite Hp' in Hp''. apply (f_equal length) in Hp''. simpl in Hp''. lia.
Qed.

End RestartFacts.

(** ** A loop that finds itself superseded *)

Section Eviction.

Variable Tick : Type.
Variable SinkSt : Type.
Context {platform : Platform}.

#[local] Abbreviation World := (World Tick SinkSt).

Implicit Types (w : World) (i j : Tid) (pc : LoopPc Tick).

Lemma evict_step w i pc t :
  threads w !! i = Some pc ->
  local_t pc = Some t ->
  thread (ds w) <> t ->
  exists w' pc',
    step (Thr i) w = Some w' /\
    ds w' = ds w /\
    threads w' !! i = Some pc' /\
    (finished pc' = true \/ local_t pc' = Some t) /\
    steps_to_eviction pc' < steps_to_eviction pc /\
    length (deliveries (trace w')) + deliveries_to_eviction pc'
    <= length (deliveries (trace w)) + deliveries_to_eviction pc.
Proof.
  intros Hpc Ht Hne.
  assert (Hlt : i < length (threads w)) by (eapply lookup_lt_Some, Hpc).
  simpl. unfold loop_step. rewrite Hpc.
  destruct pc; simpl in Ht; try done; simplify_eq;
    unfold gen_next;
    repeat case_match; simplify_eq;
    do 2 eexists; (split; [reflexivity|]);
    cbn -[lookup insert deliveries];
    (split; [reflexivity|]);
    (split; [by apply list_lookup_insert_eq|]);
    (split; [cbn; auto|]);
    (split; [cbn; lia|]);
    repeat first
      [ rewrite deliveries_length_deliver
      | progress change (deliveries (?ev :: ?tr)) with (deliveries tr) ];
    cbn -[deliveries]; lia.
Qed.

Lemma evict r : forall w i pc t,
  steps_to_eviction pc <= r ->
  threads w !! i = Some pc ->
  finished pc = true \/ local_t pc = Some t ->
  thread (ds w) <> t ->
  exists n w',
    n <= steps_to_eviction pc /\
    run (repeat (Thr i) n) w = Some w' /\
    ds w' = ds w /\
    (exists pc', threads w' !! i = Some pc' /\ finished pc' = true) /\
    length (deliveries (trace w'))
    <= length (deliveries (trace w)) + deliveries_to_eviction pc.
Proof.
  induction r as [|r IH]; intros w i pc t Hr Hpc Hloc Hne.
  - exists 0, w. destruct Hloc as [Hfin|Hloc].
    + simpl. repeat split; eauto; lia.
    + destruct pc; simpl in *; done || lia.
  - destruct (finished pc) eqn:Hfin.
    { exists 0, w. simpl. repeat split; eauto; lia. }
    destruct Hloc as [?|Hloc]; [congruence|].
    destruct (evict_step w i Hpc Hloc Hne)
      as (w1 & pc1 & Hstep & Hds & Hpc1 & Hloc1 & Hless & Hdel).
    destruct (IH w1 i pc1 t) as (n & w' & Hn & Hrun & Hds' & Hend & Hdel');
      [lia|done|done|by rewrite Hds|].
    exists (S n), w'. simpl in Hstep. simpl. rewrite Hstep.
    repeat split; [lia|done|by rewrite Hds', Hds|done|lia].
Qed.

(** X19. A loop whose [self.thread] is no longer what it read at line 85
    evicts itself when it runs alone (no step of the controller or of
    another thread in between, so that [self.thread] stays different): it
    ends within five steps, whether or not [paused] is set, and delivers at
    most one more value; it delivers none if it was at line 86, 87 or 91. *)
Theorem superseded_loop_evicts_itself w i pc t :
  threads w !! i = Some pc ->
  local_t pc = Some t ->
  thread (ds w) <> t ->
  exists n w',
    n <= 5 /\
    run (repeat (Thr i) n) w = Some w' /\
    ds w' = ds w /\
    (exists pc', threads w' !! i = Some pc' /\ finished pc' = true) /\
    length (deliveries (trace w')) <= length (deliveries (trace w)) + 1 /\
    (deliveries_to_eviction pc = 0 ->
     length (deliveries (trace w')) <= length (deliveries (trace w))).
Proof.
  intros Hpc Hloc Hne.
  destruct (@evict (steps_to_eviction pc) w i pc t)
    as (n & w' & Hn & Hrun & Hds & Hend & Hdel);
    [done|done|by right|done|].
  exists n, w'.
  assert (steps_to_eviction pc <= 5) by (destruct pc; simpl; lia).
  assert (deliveries_to_eviction pc <= 1) by (destruct pc; simpl; lia).
  repeat split; try done; lia.
Qed.

(** *** A pipeline without a generator *)

Lemma generatorless_step a w w' :
  generatorless w -> step a w = Some w' -> generatorless w'.
Proof.
  intros (Hg & Hpos & Hts & Htr & Hctl) Hstep.
  destruct a as [|i]; simpl in Hstep.
  - unfold ctl_step, pause_returns, ctl_raise, DataSource_next in Hstep.
    rewrite ?Hg in Hstep. unfold generatorless.
    destruct (ctl w) eqn:Ec; try done;
      repeat case_match; simplify_eq; simpl in *;
      repeat split; auto;
      try (apply Forall_app; split; [done|by repeat constructor]);
      try (by repeat constructor);
      try (simplify_eq; by auto);
      try (destruct k; by constructor);
      try congruence.
    match goal with
    | |- Forall _ (<[?u:=_]> _) =>
        destruct (decide (u < length (threads w)));
          [by apply Forall_insert|by rewrite list_insert_ge by lia]
    end.
  - assert (Hc : ctl w' = ctl w)
      by (by destruct (loop_step_local _ _ Hstep) as (? & _)).
    assert (Hrest : source_gen (ds w') = None /\ gen_pos w' = 0 /\
                    Forall (@no_value_pc Tick) (threads w') /\
                    Forall (@no_value_event Tick SinkSt) (trace w')).
    { clear Hctl Hc. unfold loop_step in Hstep.
      destruct (threads w !! i) as [pc|] eqn:Hi; [|done].
      assert (Hpc : no_value_pc pc)
        by (eapply Forall_lookup_1 in Hts; eauto).
      destruct pc; simpl in Hpc; try done;
        rewrite ?Hg in Hstep;
        repeat case_match; simplify_eq; simpl in *;
        (split; [done|]); (split; [done|]);
        (split; [apply Forall_insert; simpl; auto|]);
        first [done | constructor; simpl; auto]. }
    destruct Hrest as (? & ? & ? & ?).
    unfold generatorless. rewrite Hc. done.
Qed.

(** X20. A [DataSource] built without a generator never delivers: in every
    execution from a new such [DataSource] nothing is sent to the sink, whose
    state is untouched, every call of [next] returns [None], and a loop
    thread that gets to line 89 dies there of [TypeError]. *)
Theorem no_generator_no_delivery rate (s : option (Sink Tick SinkSt)) s0 p
    sched w :
  run sched (boot (DataSource_init None rate s) s0 p) = Some w ->
  deliveries (trace w) = [] /\
  (forall r, In (EvReturn CallNext r) (trace w) -> r = Returned None) /\
  (forall i e, threads w !! i = Some (LRaised e) ->
     e = ValueError \/ e = TypeError) /\
  (forall i t, threads w !! i = Some (L89 t) ->
     exists w', step (Thr i) w = Some w' /\
       threads w' !! i = Some (LRaised TypeError) /\
       paused (ds w') = paused (ds w)).
Proof.
  intros Hrun.
  assert (Hinv : generatorless w).
  { assert (H0 : generatorless (boot (DataSource_init None rate s) s0 p))
      by (repeat split; constructor).
    revert Hrun H0. generalize (boot (DataSource_init None rate s) s0 p).
    induction sched as [|a sched IH]; intros w0 Hrun H0; simpl in Hrun.
    - by simplify_eq.
    - destruct (step a w0) as [w1|] eqn:Hstep; [|done].
      eapply IH; [exact Hrun|]. eapply generatorless_step; eauto. }
  destruct Hinv as (Hg & Hpos & Hts & Htr & Hctl).
  split; [|split; [|split]].
  - unfold deliveries. f_equal.
    induction Htr as [|ev tr Hev _ IH]; [done|].
    destruct ev; simpl in *; done.
  - intros r Hin. apply list_elem_of_In in Hin.
    eapply Forall_forall in Htr; [|exact Hin]. done.
  - intros i e Hi. eapply Forall_lookup_1 in Hts; eauto. done.
  - intros i t Hi. eexists. split.
    + simpl. unfold loop_step. rewrite Hi, Hg. reflexivity.
    + simpl. split; [|done].
      apply list_lookup_insert_eq. eapply lookup_lt_Some, Hi.
Qed.

End Eviction.

Lemma unpause_leaves_one_loop_witness :
  exists w',
    run (pause_sched ++ [Ctl; Ctl; Ctl]) (running_alone [CallUnpause])
    = Some w' /\
    threads w' = [LReturned; L83] /\
    thread (ds w') = Some 1.
Proof.
  eexists. split; [vm_compute; reflexivity|]. split; [reflexivity|].
  match goal with
  | |- thread (ds ?w') = _ =>
      destruct (@unpause_leaves_one_loop nat (list nat) cpython
                  (running_alone [CallUnpause]) 0 []
                  (pause_sched ++ [Ctl; Ctl; Ctl]) w')
        as (_ & H & _);
        [reflexivity|reflexivity| |vm_compute; reflexivity
        |reflexivity|reflexivity|exact H]
  end.
  right. split; [reflexivity|]. split; [reflexivity|]. split.
  - intros i pc Hne Hi. destruct i as [|i]; [done|]. discriminate Hi.
  - exists (L86 (Some 0)). split; [reflexivity|]. by left.
Defined.

Lemma superseded_loop_evicts_itself_witness :
  exists n w',
    n <= 5 /\
    run (repeat (Thr 0) n)
        (example_world false (Some 1) [L89 (Some 0); L83] []) = Some w' /\
    length (deliveries (trace w')) <= 1.
Proof.
  destruct (@superseded_loop_evicts_itself nat (list nat) cpython
              (example_world false (Some 1) [L89 (Some 0); L83] []) 0
              (L89 (Some 0)) (Some 0))
    as (n & w' & Hn & Hrun & _ & _ & Hdel & _);
    [reflexivity|reflexivity|discriminate|].
  exists n, w'. split; [exact Hn|]. split; [exact Hrun|exact Hdel].
Defined.

Lemma no_generator_no_delivery_witness :
  exists w,
    run (solo 6 ++ [Ctl; Ctl])
        (boot (DataSource_init None 10 (Some recorder)) []
              [CallUnpause; CallNext]) = Some w /\
    threads w = [LRaised TypeError] /\
    deliveries (trace w) = [].
Proof.
  eexists. split; [vm_compute; reflexivity|]. split; [reflexivity|].
  match goal with
  | |- deliveries (trace ?w) = _ =>
      destruct (@no_generator_no_delivery nat (list nat) cpython 10%Q
                  (Some recorder) [] [CallUnpause; CallNext]
                  (solo 6 ++ [Ctl; Ctl]) w) as (H & _)
  end; [vm_compute; reflexivity|exact H].
Defined.

(** ** From [main] to the chart *)

Section MainFacts.

Variable Tick : Type.
Variable App : Type.
Variable Line : Type.
Context {platform : Platform}.

Lemma CandleApp_after_foldl (ops : ChartOps Tick App Line) (vs : list Tick) :
  forall st,
    foldl (fun st x => out_state (send (CandleApp_sink ops) st x)) st vs
    = CandleApp_after ops st vs.
Proof.
  unfold CandleApp_after. induction vs as [|v vs IH]; intros st; [done|].
  simpl. rewrite IH. by destruct (CandleApp_send ops (Some v) st).
Qed.

Lemma line_91_at_10 :
  time_sleep (Finite tenth) = None -> line_91 10 = inl (Some (Finite tenth)).
Proof.
  intros H. unfold line_91.
  change (Qeq_bool 10 0) with false.
  replace (sleep_length 10) with (inl (Finite tenth) : Double + Exn)
    by (vm_compute; reflexivity).
  by rewrite H.
Qed.

(** X21. The application as [main] builds it, at 10 ticks per second on a
    platform where [time.sleep(0.1)] returns.  The constructor binds the
    application as the sink of the source that [random_source] built without
    one.  At the first press of P, [toggle_pause] finds the source paused and
    calls [unpause]; the loop it starts, running alone, passes the test of
    line 83 and delivers the values of the generator to [CandleApp.send] in
    generator order, each once, whether or not the chart accepts them. *)
Theorem first_press_streams_in_order (ops : ChartOps Tick App Line)
    (rgen : Generator Tick) (st0 : App) (vs : list Tick) :
  time_sleep (Finite tenth) = None ->
  (forall k v, vs !! k = Some v -> rgen k = Some v) ->
  exists w0,
    sink (ds (main_world ops rgen st0)) = None /\
    run [Ctl] (main_world ops rgen st0) = Some w0 /\
    sink (ds w0) = Some (CandleApp_sink ops) /\
    ctl w0 = CReady /\
    paused (ds w0) = true /\
    exists w',
      run (unpause_steps ++ repeat (Thr 0) (3 + 5 * length vs))
          (toggle_pause w0) = Some w' /\
      deliveries (trace w') = map (pair 0) vs /\
      sink_st w' = CandleApp_after ops st0 vs /\
      gen_pos w' = length vs /\
      paused (ds w') = false /\
      threads w' = [L86 (Some 0)].
Proof.
  intros Hsleep Hvs.
  eexists. split; [reflexivity|]. split; [reflexivity|].
  split; [reflexivity|]. split; [reflexivity|]. split; [reflexivity|].
  set (w3 := {| ds := {| source_gen := Some rgen; data_rate := 10;
                         thread := Some 0; paused := false;
                         sink := Some (CandleApp_sink ops) |};
                gen_pos := 0; sink_st := st0; threads := [L86 (Some 0)];
                ctl := CReady; prog := [];
                trace := [EvReturn CallUnpause (Returned None); EvStart 0;
                          EvCall CallUnpause;
                          EvCall (SetSink (CandleApp_sink ops))] |}
             : World Tick App).
  match goal with
  | |- exists w', run _ ?w = _ /\ _ =>
      assert (Hstart : run (unpause_steps ++ repeat (Thr 0) 3) w = Some w3)
        by reflexivity
  end.
  rewrite repeat_app, app_assoc, run_app, Hstart.
  edestruct (@loop_iterations Tick App platform (CandleApp_sink ops) rgen vs
               w3 0 (Some 0))
    as (w' & Hrun & Hth & Hds & Hpos & Hst & Hdel);
    try reflexivity.
  - apply CandleApp_send_returns.
  - intros e. change (data_rate (ds w3)) with (10 : Q).
    by rewrite (line_91_at_10 Hsleep).
  - exact Hvs.
  - exists w'. split; [exact Hrun|].
    split; [exact Hdel|]. split; [by rewrite Hst, CandleApp_after_foldl|].
    split; [exact Hpos|]. split; [by rewrite Hds|exact Hth].
Qed.

End MainFacts.

Lemma first_press_streams_in_order_witness :
  exists w0,
    run [Ctl] (main_world (brittle_chart 2) counting []) = Some w0 /\
    exists w',
      run (unpause_steps ++ repeat (Thr 0) 13) (toggle_pause w0) = Some w' /\
      deliveries (trace w') = [(0, 1); (0, 2)] /\
      sink_st w' = [1].
Proof.
  destruct (@first_press_streams_in_order nat (list nat) nat cpython
              (brittle_chart 2) counting [] [1; 2])
    as (w0 & _ & Hrun0 & _ & _ & _ & w' & Hrun & Hdel & Hst & _).
  - vm_compute; reflexivity.
  - intros k v Hk. destruct k as [|[|k]]; simpl in Hk; by simplify_eq.
  - exists w0. split; [exact Hrun0|].
    exists w'. split; [exact Hrun|]. split; [exact Hdel|exact Hst].
Defined.
